(** * span.utils: the binning and cross-correlation kernels

    A shallow embedding of [src/span/utils/bin_data.pyx], which holds two
    Cython kernels:

    - [bin_data] / [_bin_data]: sums the rows of a [uint8] sample array
      that fall into each bin of an edge array, into a freshly allocated
      array of C [long];
    - [mult_mat_xcorr] / [_mult_mat_xcorr]: writes into [c] the products
      of rows of [X] with rows of [Xc], block by block, under [prange].

    Modelling choices, shared by both kernels.

    - Arrays live in a heap and are passed by reference (a location):
      numpy arrays and typed memoryviews are references to buffers, and a
      caller may pass one buffer for two parameters.  Two parameters are
      either one buffer (one location) or share no memory (two locations);
      a view of a part of another argument's memory is not represented.
      A hypothesis [c ≠ X] therefore reads: [c] shares no memory with [X].
    - Both kernels are compiled with [boundscheck(False)] and
      [wraparound(False)]: an index outside a buffer is not checked.  Such
      an access has no defined result; the model stops with [Undefined].
      [Undefined] says that an access outside a buffer takes place, not
      what the compiled code does next: it may return with values taken
      from outside the buffer, or crash.  [Done] says that the call ran to
      its end with every access inside its buffer.
    - The outer loop of the cross-correlator is a [prange]: the order of
      its iterations is chosen by OpenMP, anew in every call.  [run_blocks]
      takes that order as a parameter and [run_steps] an interleaving of
      the single assignments; [_mult_mat_xcorr] is the run in the order
      [0 .. n-1], which every other order equals when [c] shares no memory
      with [X] or [Xc].
    - Element values are machine values: a C [long] sum wraps modulo 2^64
      ([long_add]), [uint8] samples lie in [0, 256), and the float kernel
      is instantiated with binary64 primitive floats.  Sizes and indices
      are integers of [Z]: memory exhaustion is not modelled, and an index
      is the code's C index as long as that does not overflow, which holds
      for edges inside the samples and is a hypothesis elsewhere. *)

From Stdlib Require Import ZArith Lia Floats.
From stdpp Require Import base option list numbers gmap fin_maps.

#[local] Open Scope Z_scope.

(** ** Outcomes of a call *)

(** Python exceptions the modelled code can raise. *)
Inductive exn : Type :=
  | ValueError
  | TypeError.

(** A call returns, raises, or runs into an unchecked out-of-bounds access. *)
Inductive outcome (A : Type) : Type :=
  | Done (a : A)
  | Raised (e : exn)
  | Undefined.

Arguments Done {A} a.
Arguments Raised {A} e.
Arguments Undefined {A}.

#[export] Instance outcome_ret : MRet outcome := λ A a, Done a.

#[export] Instance outcome_bind : MBind outcome := λ A B f o,
  match o with
  | Done a => f a
  | Raised e => Raised e
  | Undefined => Undefined
  end.

(** [for x in xs: body(x)] over a state [S]. *)
Fixpoint for_each {I S : Type} (xs : list I) (body : I → S → outcome S)
    (s : S) : outcome S :=
  match xs with
  | [] => Done s
  | x :: xs' => body x s ≫= for_each xs' body
  end.

(** Python's [xrange(lo, hi)]: empty when [hi <= lo]. *)
Definition xrange (lo hi : Z) : list Z := seqZ lo (hi - lo).

(** Python's [enumerate(xs)], with a C integer counter. *)
Definition enumerate {A : Type} (xs : list A) : list (Z * A) :=
  zip (seqZ 0 (Z.of_nat (length xs))) xs.

(** Locations of buffers in the heap. *)
Abbreviation loc := nat (only parsing).

(** ** The block cross-correlator *)

Module XCorr.

Section kernel.

(** The fused type [cflt] (f4, f8, c8 or c16) and its multiplication. *)
Variable T : Type.
Variable mul : T → T → T.

(** A two-dimensional memoryview [cflt[:, :]], row by row. *)
Abbreviation view := (list (list T)) (only parsing).
Abbreviation heap := (gmap loc (list (list T))) (only parsing).

(** [m[j, k]] inside the view, [None] outside of it. *)
Definition mget (m : view) (j k : Z) : option T :=
  if decide (0 ≤ j ∧ 0 ≤ k) then m !! Z.to_nat j ≫= (.!! Z.to_nat k)
  else None.

(** [m[j, k] = x] inside the view, [None] outside of it. *)
Definition mset (m : view) (j k : Z) (x : T) : option view :=
  match mget m j k, m !! Z.to_nat j with
  | Some _, Some row => Some (<[Z.to_nat j := <[Z.to_nat k := x]> row]> m)
  | _, _ => None
  end.

(** Unchecked read [p[j, k]]. *)
Definition read (p : loc) (j k : Z) (h : heap) : outcome T :=
  match h !! p ≫= (λ m, mget m j k) with
  | Some x => Done x
  | None => Undefined
  end.

(** Unchecked write [p[j, k] = x]. *)
Definition write (p : loc) (j k : Z) (x : T) (h : heap) : outcome heap :=
  match h !! p ≫= (λ m, mset m j k x) with
  | Some m' => Done (<[p := m']> h)
  | None => Undefined
  end.

(** The innermost statement, [c[j, k] = X[i, k] * Xc[r, k]]. *)
Definition assign (X Xc c : loc) (i r j k : Z) (h : heap) : outcome heap :=
  x ← read X i k h;
  y ← read Xc r k h;
  write c j k (mul x y) h.

(** The body of the [prange] loop for one value of [i]. *)
Definition block (X Xc c : loc) (n nx : Z) (i : Z) : heap → outcome heap :=
  for_each (enumerate (xrange (i * n) ((i + 1) * n)))
    (λ '(r, j), for_each (xrange 0 nx) (λ k, assign X Xc c i r j k)).

(** The outer iterations run in the order [sched]. *)
Definition run_blocks (X Xc c : loc) (n nx : Z) (sched : list Z)
    : heap → outcome heap :=
  for_each sched (block X Xc c n nx).

(** [_mult_mat_xcorr], with the iterations of [prange(n)] in sequence. *)
Definition _mult_mat_xcorr (X Xc c : loc) (n nx : Z) : heap → outcome heap :=
  run_blocks X Xc c n nx (xrange 0 n).

(** The [cpdef] entry point. *)
Definition mult_mat_xcorr (X Xc c : loc) (n nx : Z) : heap → outcome heap :=
  _mult_mat_xcorr X Xc c n nx.

(** The element [p[j, k]] of the heap, when there is one. *)
Definition cell (h : heap) (p : loc) (j k : Z) : option T :=
  h !! p ≫= (λ m, mget m j k).

(** The value [X[i, k] * Xc[r, k]] one assignment computes. *)
Definition product_at (h : heap) (X Xc : loc) (i r k : Z) : option T :=
  x ← cell h X i k; y ← cell h Xc r k; Some (mul x y).

(** The lengths of the rows of a view. *)
Definition shape_of (m : view) : list nat := length <$> m.

(** A view of shape [(rows, cols)]. *)
Definition has_shape (m : view) (rows cols : Z) : Prop :=
  Z.of_nat (length m) = rows ∧
  0 ≤ cols ∧ Forall (λ row, Z.of_nat (length row) = cols) m.

(** The assignments of the iteration [i], in program order, each as
    [(i, r, j, k)]. *)
Definition block_steps (n nx : Z) (i : Z) : list (Z * Z * Z * Z) :=
  '(r, j) ← enumerate (xrange (i * n) ((i + 1) * n));
  k ← xrange 0 nx;
  [(i, r, j, k)].

(** All assignments of a call, in sequential program order. *)
Definition all_steps (n nx : Z) : list (Z * Z * Z * Z) :=
  xrange 0 n ≫= block_steps n nx.

(** The assignments run one at a time in the order [steps]: an
    interleaving of the iterations that several workers execute. *)
Definition run_steps (X Xc c : loc) (steps : list (Z * Z * Z * Z))
    : heap → outcome heap :=
  for_each steps (λ '(i, r, j, k), assign X Xc c i r j k).

(** Every element that the loops of a call read or write exists: rows
    [0 .. n-1] of [X] and of [Xc] and rows [0 .. n*n-1] of [c] have at least
    [nx] columns. *)
Definition in_bounds (h : heap) (X Xc c : loc) (n nx : Z) : Prop :=
  ∀ i r k, 0 ≤ i < n → 0 ≤ r < n → 0 ≤ k < nx →
    is_Some (cell h X i k) ∧ is_Some (cell h Xc r k) ∧
    is_Some (cell h c (i * n + r) k).

End kernel.

End XCorr.

(** The [f8] instance of [cflt]: binary64 floats and their product. *)
Definition f8 : Type := float.
Definition f8_mul : f8 → f8 → f8 := PrimFloat.mul.

(** The heap of the contract's example: [X] at 0, [Xc] at 1 and a zeroed
    [c] at 2, for [n = 2] and [nx = 1]. *)
Definition ex_X : list (list f8) := [[2%float]; [3%float]].
Definition ex_Xc : list (list f8) :=
  [[1%float]; [2%float]; [3%float]; [4%float]].
Definition ex_c : list (list f8) :=
  [[0%float]; [0%float]; [0%float]; [0%float]].
Definition ex_heap : gmap nat (list (list f8)) :=
  {[ 0%nat := ex_X; 1%nat := ex_Xc; 2%nat := ex_c ]}.

(** The same call with other values in rows 2 and 3 of [Xc] and in [c],
    on buffers at other places: [X] at 5, [Xc] at 4 and [c] at 3. *)
Definition ex_Xc2 : list (list f8) :=
  [[1%float]; [2%float]; [7%float]; [8%float]].
Definition ex_c2 : list (list f8) :=
  [[5%float]; [5%float]; [5%float]; [5%float]].
Definition ex_heap2 : gmap nat (list (list f8)) :=
  {[ 5%nat := ex_X; 4%nat := ex_Xc2; 3%nat := ex_c2 ]}.

(** A heap for calls that pass one buffer as both [Xc] and [c]. *)
Definition ex_shared : list (list f8) :=
  [[1%float]; [1%float]; [0%float]; [0%float]].
Definition ex_alias_heap : gmap nat (list (list f8)) :=
  {[ 0%nat := ex_X; 1%nat := ex_shared ]}.

(** The same [X] and [Xc], with [c] a buffer of its own at 2. *)
Definition ex_sep_heap : gmap nat (list (list f8)) :=
  {[ 0%nat := ex_X; 1%nat := ex_shared; 2%nat := ex_c ]}.

(** A heap for calls that pass one buffer as both [X] and [c]. *)
Definition ex_shared_X : list (list f8) :=
  [[2%float]; [3%float]; [0%float]; [0%float]].
Definition ex_alias_X_heap : gmap nat (list (list f8)) :=
  {[ 0%nat := ex_shared_X; 1%nat := [[1%float]; [1%float]] ]}.

(** ** The binning aggregator *)

Module Bin.

(** Element types of the arrays the kernel handles.  ([cast=True] also
    lets arrays of another one-byte type through as [uint8]; such arrays
    are not modelled.) *)
Inductive dtype : Type :=
  | UInt8
  | Long.

#[export] Instance dtype_eq_dec : EqDecision dtype.
Proof. solve_decision. Defined.

(** A C-contiguous numpy array: element type, shape, and the elements in
    row-major order. *)
Record ndarray : Type := NdArray {
  nd_dtype : dtype;
  nd_shape : list Z;
  nd_data : list Z
}.

Abbreviation heap := (gmap loc ndarray) (only parsing).

(** C [long]: 64 bits, two's complement. *)
Definition long_min : Z := - 2 ^ 63.
Definition long_max : Z := 2 ^ 63 - 1.
Definition wrap_long (z : Z) : Z := (z + 2 ^ 63) mod 2 ^ 64 - 2 ^ 63.
Definition long_add (x y : Z) : Z := wrap_long (x + y).

(** [p.shape[d]]. *)
Definition shape_at (p : loc) (d : nat) (h : heap) : outcome Z :=
  match h !! p ≫= (λ A, nd_shape A !! d) with
  | Some z => Done z
  | None => Undefined
  end.

(** Unchecked read [(<T*> p.data)[i]]. *)
Definition load (p : loc) (i : Z) (h : heap) : outcome Z :=
  match h !! p with
  | Some A =>
      if decide (0 ≤ i) then
        match nd_data A !! Z.to_nat i with
        | Some z => Done z
        | None => Undefined
        end
      else Undefined
  | None => Undefined
  end.

(** Unchecked write [(<T*> p.data)[i] = z]. *)
Definition store (p : loc) (i : Z) (z : Z) (h : heap) : outcome heap :=
  match h !! p with
  | Some A =>
      if decide (0 ≤ i < Z.of_nat (length (nd_data A))) then
        Done (<[p := NdArray (nd_dtype A) (nd_shape A)
                        (<[Z.to_nat i := z]> (nd_data A))]> h)
      else Undefined
  | None => Undefined
  end.

(** [out_data[i * n + k] += a_data[j * n + k]]. *)
Definition accumulate (a out : loc) (n i j k : Z) (h : heap) : outcome heap :=
  x ← load a (j * n + k) h;
  y ← load out (i * n + k) h;
  store out (i * n + k) (long_add y x) h.

(** The loop over the rows [bin_data[i] .. bin_data[i + 1]] of one bin. *)
Definition bin_loop (a bins out : loc) (n k i : Z) (h : heap) : outcome heap :=
  lo ← load bins i h;
  hi ← load bins (i + 1) h;
  for_each (xrange lo hi) (λ j, accumulate a out n i j k) h.

(** [_bin_data(a, bins, out)]. *)
Definition _bin_data (a bins out : loc) (h : heap) : outcome heap :=
  nbins ← shape_at bins 0 h;
  n ← shape_at out 1 h;
  for_each (xrange 0 n)
    (λ k, for_each (xrange 0 (nbins - 1)) (λ i, bin_loop a bins out n k i)) h.

(** Buffer acquisition for a parameter [np.ndarray[d, ndim=nd] p not None]:
    a location with no array stands for [None]. *)
Definition acquire (d : dtype) (nd : nat) (p : loc) (h : heap)
    : outcome ndarray :=
  match h !! p with
  | None => Raised TypeError
  | Some A =>
      if decide (nd_dtype A = d ∧ length (nd_shape A) = nd) then Done A
      else Raised ValueError
  end.

(** [np.zeros(shape, dtype=np.long)]: negative dimensions are refused. *)
Definition np_zeros (shape : list Z) : outcome ndarray :=
  if decide (Forall (λ d, 0 ≤ d) shape) then
    Done (NdArray Long shape (replicate (Z.to_nat (foldr Z.mul 1 shape)) 0))
  else Raised ValueError.

(** Allocation of a new array in the heap. *)
Definition alloc (A : ndarray) (h : heap) : loc * heap :=
  let p := fresh (dom h) in (p, <[p := A]> h).

(** The test of a parameter declared [not None], made for every parameter
    when the function is entered, before any buffer is acquired. *)
Definition not_none (p : loc) (h : heap) : outcome unit :=
  match h !! p with
  | None => Raised TypeError
  | Some _ => Done ()
  end.

(** [bin_data(a, bins)]: returns the location of the new array. *)
Definition bin_data (a bins : loc) (h : heap) : outcome (loc * heap) :=
  _ ← not_none a h;
  _ ← not_none bins h;
  A ← acquire UInt8 2 a h;
  E ← acquire Long 1 bins h;
  nbins ← shape_at bins 0 h;
  n ← shape_at a 1 h;
  Z0 ← np_zeros [nbins - 1; n];
  let '(out, h1) := alloc Z0 h in
  h2 ← _bin_data a bins out h1;
  Done (out, h2).

(** *** Reading the arguments and the result *)

(** [E[i]] of a one-dimensional array. *)
Definition item1 (E : ndarray) (i : Z) : option Z :=
  if decide (0 ≤ i) then nd_data E !! Z.to_nat i else None.

(** [A[i][k]] of a two-dimensional array, in row-major order. *)
Definition item2 (A : ndarray) (i k : Z) : option Z :=
  match nd_shape A with
  | [rows; cols] =>
      if decide (0 ≤ i < rows ∧ 0 ≤ k < cols) then
        nd_data A !! Z.to_nat (i * cols + k)
      else None
  | _ => None
  end.

(** A [uint8] array of shape [(T, N)]: the [samples] of a call. *)
Definition is_samples (A : ndarray) (T N : Z) : Prop :=
  nd_dtype A = UInt8 ∧ nd_shape A = [T; N] ∧
  0 ≤ T ≤ long_max ∧ 0 ≤ N ≤ long_max ∧
  Z.of_nat (length (nd_data A)) = T * N ∧
  Forall (λ v, 0 ≤ v < 256) (nd_data A).

(** A [long] array of shape [(len,)]: the [bin_edges] of a call. *)
Definition is_edges (E : ndarray) (len : Z) : Prop :=
  nd_dtype E = Long ∧ nd_shape E = [len] ∧
  Z.of_nat (length (nd_data E)) = len.

(** Edges in ascending order. *)
Definition ascending (l : list Z) : Prop :=
  ∀ i x y, l !! i = Some x → l !! S i = Some y → x ≤ y.

Definition Zsum (l : list Z) : Z := foldr Z.add 0 l.

(** The sum of [A[j][k]] over the rows [lo <= j < hi]. *)
Definition column_sum (A : ndarray) (k lo hi : Z) : Z :=
  Zsum ((λ j, default 0 (item2 A j k)) <$> xrange lo hi).

(** The state of the output buffer while [_bin_data] runs: the elements
    [(i, k)] in [Q] hold the sum of their bin, the others are still zero. *)
Definition filled (A E : ndarray) (B N : Z) (Q : Z → Z → Prop)
    (d : list Z) : Prop :=
  Z.of_nat (length d) = B * N ∧
  ∀ i k, 0 ≤ i < B → 0 ≤ k < N →
    ∃ lo hi, item1 E i = Some lo ∧ item1 E (i + 1) = Some hi ∧
      ((Q i k ∧
        d !! Z.to_nat (i * N + k) = Some (wrap_long (column_sum A k lo hi))) ∨
       (¬ Q i k ∧ d !! Z.to_nat (i * N + k) = Some 0)).

(** The array a call returns, read off the heap it leaves. *)
Definition bin_result (a bins : loc) (h : heap) : outcome ndarray :=
  '(out, h') ← bin_data a bins h;
  match h' !! out with
  | Some R => Done R
  | None => Undefined
  end.

(** numpy's [A + B] for two arrays of one element type and shape: the
    sums are taken in the element type, so [uint8] sums wrap modulo 256
    and [long] sums modulo 2^64. *)
Definition wrap_uint8 (z : Z) : Z := z mod 256.

Definition dtype_wrap (d : dtype) : Z → Z :=
  match d with
  | UInt8 => wrap_uint8
  | Long => wrap_long
  end.

Definition np_add (A B : ndarray) : ndarray :=
  NdArray (nd_dtype A) (nd_shape A)
    (zip_with (λ x y, dtype_wrap (nd_dtype A) (x + y)) (nd_data A) (nd_data B)).

(** *** Example heaps *)

(** The samples [[1],[0],[1],[1]] at 0 and the edges [0, 2, 4] at 1. *)
Definition ex_samples : ndarray := NdArray UInt8 [4; 1] [1; 0; 1; 1].
Definition ex_edges : ndarray := NdArray Long [3] [0; 2; 4].
Definition ex_bin_heap : gmap nat ndarray :=
  {[ 0%nat := ex_samples; 1%nat := ex_edges ]}.

(** Edges with an empty first bin, with a decreasing pair, and with an
    edge past the last row. *)
Definition ex_heap_empty_bin : gmap nat ndarray :=
  {[ 0%nat := ex_samples; 1%nat := NdArray Long [3] [0; 0; 2] ]}.
Definition ex_heap_decreasing : gmap nat ndarray :=
  {[ 0%nat := ex_samples; 1%nat := NdArray Long [3] [3; 1; 4] ]}.
Definition ex_heap_out_of_range : gmap nat ndarray :=
  {[ 0%nat := ex_samples; 1%nat := NdArray Long [2] [0; 5] ]}.

(** Two one-element sample arrays at 0 and 1, their numpy sum at 2, and
    the edges [0, 1] at 3. *)
Definition ex_heap_sum (x y : Z) : gmap nat ndarray :=
  {[ 0%nat := NdArray UInt8 [1; 1] [x];
     1%nat := NdArray UInt8 [1; 1] [y];
     2%nat := np_add (NdArray UInt8 [1; 1] [x]) (NdArray UInt8 [1; 1] [y]);
     3%nat := NdArray Long [2] [0; 1] ]}.

(** The state of an output buffer that held [d0] when [_bin_data] was
    entered: the elements [(i, k)] in [Q] have had the sum of their bin
    added, the others are as in [d0]. *)
Definition added (A E : ndarray) (B N : Z) (d0 : list Z)
    (Q : Z → Z → Prop) (d : list Z) : Prop :=
  Z.of_nat (length d) = B * N ∧
  ∀ i k, 0 ≤ i < B → 0 ≤ k < N →
    ∃ lo hi y0, item1 E i = Some lo ∧ item1 E (i + 1) = Some hi ∧
      d0 !! Z.to_nat (i * N + k) = Some y0 ∧ long_min ≤ y0 ≤ long_max ∧
      ((Q i k ∧
        d !! Z.to_nat (i * N + k) =
          Some (wrap_long (y0 + column_sum A k lo hi))) ∨
       (¬ Q i k ∧ d !! Z.to_nat (i * N + k) = Some y0)).

(** An output buffer that already holds [[10],[20]]. *)
Definition ex_heap_preloaded : gmap nat ndarray :=
  {[ 0%nat := ex_samples; 1%nat := ex_edges;
     2%nat := NdArray Long [2; 1] [10; 20] ]}.

(** No edges at all, and a second sample array that differs from the
    first outside the rows of bin 0 of the edges [0, 2, 4]. *)
Definition ex_heap_no_edges : gmap nat ndarray :=
  {[ 0%nat := ex_samples; 1%nat := NdArray Long [0] [] ]}.

End Bin.

(** * Properties *)

(** ** Loops *)

Section loops.

Context {I S : Type}.
Implicit Types (body : I → S → outcome S) (xs ys : list I) (s : S).

Lemma outcome_bind_assoc {A B C : Type} (f : A → outcome B)
    (g : B → outcome C) (o : outcome A) :
  (o ≫= f) ≫= g = o ≫= (λ a, f a ≫= g).
Proof. by destruct o. Qed.

Lemma outcome_Done_bind {A B : Type} (f : A → outcome B) (a : A) :
  Done a ≫= f = f a.
Proof. done. Qed.

Lemma outcome_bind_ext {A B : Type} (f g : A → outcome B) (o : outcome A) :
  (∀ a, o = Done a → f a = g a) → o ≫= f = o ≫= g.
Proof. destruct o as [a| |]; simpl; auto. Qed.

Lemma for_each_app xs ys body s :
  for_each (xs ++ ys) body s = for_each xs body s ≫= for_each ys body.
Proof.
  revert s. induction xs as [|x xs IH]; intros s; simpl; [done|].
  rewrite outcome_bind_assoc. apply outcome_bind_ext. auto.
Qed.

Lemma for_each_ext xs body body' s :
  (∀ x s', x ∈ xs → body x s' = body' x s') →
  for_each xs body s = for_each xs body' s.
Proof.
  revert s. induction xs as [|x xs IH]; intros s Hb; simpl; [done|].
  rewrite (Hb x s) by left.
  apply outcome_bind_ext. intros s' _. apply IH.
  intros y s'' Hy. apply Hb. by right.
Qed.

(** A nested loop is one loop over the flattened iteration space. *)
Lemma for_each_flatten {J : Type} (f : J → list I) (js : list J) body s :
  for_each js (λ j, for_each (f j) body) s = for_each (js ≫= f) body s.
Proof.
  revert s. induction js as [|j js IH]; intros s; simpl; [done|].
  rewrite for_each_app. apply outcome_bind_ext. auto.
Qed.

(** Iterations that commute pairwise may run in any order. *)
Lemma for_each_Permutation `{!EqDecision I} xs ys body :
  xs ≡ₚ ys →
  (∀ x y s, x ∈ xs → y ∈ xs → x ≠ y →
     body x s ≫= body y = body y s ≫= body x) →
  ∀ s, for_each xs body s = for_each ys body s.
Proof.
  induction 1 as [|x xs ys Hp IH|x y xs|xs ys zs Hp1 IH1 Hp2 IH2];
    intros Hc s; simpl.
  - done.
  - apply outcome_bind_ext. intros s' _. apply IH.
    intros a b s'' Ha Hb. apply Hc; by right.
  - rewrite <- !outcome_bind_assoc.
    destruct (decide (x = y)) as [->|Hne]; [done|].
    f_equal. apply Hc; [left|right; left|done].
  - rewrite IH1 by done. apply IH2.
    intros a b s' Ha Hb. apply Hc; by rewrite Hp1.
Qed.

(** A loop raises only if its body does. *)
Lemma for_each_Raised xs body s e :
  for_each xs body s = Raised e → ∃ x s', x ∈ xs ∧ body x s' = Raised e.
Proof.
  revert s. induction xs as [|x xs IH]; intros s; simpl; [done|].
  destruct (body x s) as [s'| e' |] eqn:Hx; simpl; [|intros [= ->]|done].
  - intros (y & s'' & Hy & Hr)%IH. exists y, s''. split; [by right|done].
  - exists x, s. split; [left|done].
Qed.

End loops.

Lemma elem_of_xrange (lo hi z : Z) : z ∈ xrange lo hi ↔ lo ≤ z < hi.
Proof. unfold xrange. rewrite elem_of_seqZ. lia. Qed.

Lemma NoDup_xrange (lo hi : Z) : NoDup (xrange lo hi).
Proof. apply NoDup_seqZ. Qed.

Lemma xrange_nil (lo hi : Z) : hi ≤ lo → xrange lo hi = [].
Proof.
  intros H. unfold xrange, seqZ.
  by replace (Z.to_nat (hi - lo)) with 0%nat by lia.
Qed.

Lemma elem_of_enumerate_xrange (lo hi r j : Z) :
  (r, j) ∈ enumerate (xrange lo hi) ↔ 0 ≤ r < hi - lo ∧ j = lo + r.
Proof.
  unfold enumerate, xrange. rewrite length_seqZ.
  rewrite list_elem_of_lookup. split.
  - intros (i & Hi). apply lookup_zip_with_Some in Hi as (a & b & [= <- <-] & Ha & Hb).
    apply lookup_seqZ in Ha as [-> Ha]. apply lookup_seqZ in Hb as [-> Hb]. lia.
  - intros [Hr ->]. exists (Z.to_nat r). apply lookup_zip_with_Some.
    exists r, (lo + r). split; [done|]. rewrite !lookup_seqZ. lia.
Qed.

(** ** Views and heaps of the cross-correlator *)

Import XCorr.

Section views.

Context {T : Type}.
Implicit Types (m : list (list T)) (x y : T) (j k : Z).

Lemma mget_Some m j k x :
  mget T m j k = Some x ↔
  0 ≤ j ∧ 0 ≤ k ∧ ∃ row, m !! Z.to_nat j = Some row ∧ row !! Z.to_nat k = Some x.
Proof.
  unfold mget. case_decide as Hjk.
  - rewrite bind_Some. destruct Hjk. split; [auto|by intros (_ & _ & ?)].
  - split; [done|]. intros (? & ? & _). lia.
Qed.

Lemma mget_is_Some m j k :
  is_Some (mget T m j k) ↔
  0 ≤ j ∧ 0 ≤ k ∧
  ∃ len, shape_of T m !! Z.to_nat j = Some len ∧ (Z.to_nat k < len)%nat.
Proof.
  unfold is_Some, shape_of. setoid_rewrite mget_Some.
  setoid_rewrite list_lookup_fmap. setoid_rewrite fmap_Some. split.
  - intros (x & ? & ? & row & Hr & Hx). do 2 (split; [done|]).
    exists (length row). split; [eauto|]. by eapply lookup_lt_Some.
  - intros (? & ? & len & (row & Hr & ->) & Hk).
    destruct (lookup_lt_is_Some_2 row (Z.to_nat k) Hk) as [x Hx]. naive_solver.
Qed.

Lemma mset_Some m j k x m' :
  mset T m j k x = Some m' ↔
  is_Some (mget T m j k) ∧
  ∃ row, m !! Z.to_nat j = Some row ∧
         m' = <[Z.to_nat j := <[Z.to_nat k := x]> row]> m.
Proof.
  unfold mset. destruct (mget T m j k) as [y|] eqn:Hg.
  - apply mget_Some in Hg as (? & ? & row & Hr & Hy). rewrite Hr.
    split; [intros [= <-]; eauto|]. by intros (_ & row' & [= <-] & ->).
  - split; [done|]. by intros [[? [=]] _].
Qed.

Lemma mset_is_Some m j k x :
  is_Some (mset T m j k x) ↔ is_Some (mget T m j k).
Proof.
  split.
  - intros [m' Hm']. by apply mset_Some in Hm' as [? _].
  - intros Hg. destruct (Hg) as [y (? & ? & row & Hr & Hy)%mget_Some].
    eexists. apply mset_Some. eauto.
Qed.

Lemma mset_shape m j k x m' :
  mset T m j k x = Some m' → shape_of T m' = shape_of T m.
Proof.
  intros (_ & row & Hr & ->)%mset_Some. unfold shape_of.
  rewrite list_fmap_insert, length_insert.
  apply list_insert_id. by rewrite list_lookup_fmap, Hr.
Qed.

Lemma mget_mset m j k x m' j' k' :
  mset T m j k x = Some m' →
  mget T m' j' k' =
    if decide (j' = j ∧ k' = k) then Some x else mget T m j' k'.
Proof.
  intros ([y Hy] & row & Hr & ->)%mset_Some.
  apply mget_Some in Hy as (Hj & Hk & row' & Hr' & Hy).
  assert (row' = row) as -> by congruence.
  pose proof (lookup_lt_Some _ _ _ Hr) as Hlj.
  pose proof (lookup_lt_Some _ _ _ Hy) as Hlk.
  case_decide as Heq.
  - destruct Heq as [-> ->]. apply mget_Some. do 2 (split; [done|]).
    exists (<[Z.to_nat k := x]> row).
    by rewrite !list_lookup_insert_eq.
  - unfold mget. case_decide as Hpos; [|done].
    destruct (decide (Z.to_nat j' = Z.to_nat j)) as [Ej|Ej].
    + rewrite Ej, list_lookup_insert_eq, Hr by done. simpl.
      apply list_lookup_insert_ne. intros Ek. apply Heq. lia.
    + by rewrite list_lookup_insert_ne.
Qed.

(** Two views with the same row lengths and the same elements are equal. *)
Lemma view_ext m1 m2 :
  shape_of T m1 = shape_of T m2 →
  (∀ j k, mget T m1 j k = mget T m2 j k) → m1 = m2.
Proof.
  intros Hs He. apply list_eq. intros i.
  assert (length <$> m1 !! i = length <$> m2 !! i) as Hl.
  { unfold shape_of in Hs. by rewrite <- !list_lookup_fmap, Hs. }
  destruct (m1 !! i) as [r1|] eqn:H1, (m2 !! i) as [r2|] eqn:H2;
    simplify_eq/=; [|done].
  f_equal. apply list_eq. intros k.
  specialize (He (Z.of_nat i) (Z.of_nat k)). unfold mget in He.
  rewrite !decide_True, !Nat2Z.id, H1, H2 in He by lia. done.
Qed.

(** Writes to different elements commute. *)
Lemma mset_comm m j1 k1 x1 j2 k2 x2 :
  (j1, k1) ≠ (j2, k2) →
  mset T m j1 k1 x1 ≫= (λ m', mset T m' j2 k2 x2) =
  mset T m j2 k2 x2 ≫= (λ m', mset T m' j1 k1 x1).
Proof.
  intros Hne.
  assert (∀ ja ka xa jb kb xb, (ja, ka) ≠ (jb, kb) →
    mset T m ja ka xa = None →
    mset T m jb kb xb ≫= (λ m', mset T m' ja ka xa) = None) as Hnone.
  { intros ja ka xa jb kb xb Hab Ha%eq_None_not_Some.
    destruct (mset T m jb kb xb) as [mb|] eqn:Hb; simpl; [|done].
    apply eq_None_not_Some. intros Hs. apply Ha.
    apply mset_is_Some. apply mset_is_Some in Hs.
    rewrite (mget_mset _ _ _ _ _ _ _ Hb), decide_False in Hs; [done|].
    intros [-> ->]. done. }
  destruct (mset T m j1 k1 x1) as [ma|] eqn:Ha;
    destruct (mset T m j2 k2 x2) as [mb|] eqn:Hb; simpl.
  - assert (is_Some (mset T ma j2 k2 x2)) as [mab Hab].
    { apply mset_is_Some. rewrite (mget_mset _ _ _ _ _ _ _ Ha), decide_False.
      - apply (proj1 (mset_is_Some m j2 k2 x2)). eauto.
      - intros [-> ->]. done. }
    assert (is_Some (mset T mb j1 k1 x1)) as [mba Hba].
    { apply mset_is_Some. rewrite (mget_mset _ _ _ _ _ _ _ Hb), decide_False.
      - apply (proj1 (mset_is_Some m j1 k1 x1)). eauto.
      - intros [-> ->]. done. }
    rewrite Hab, Hba. f_equal. apply view_ext.
    + rewrite (mset_shape _ _ _ _ _ Hab), (mset_shape _ _ _ _ _ Ha).
      by rewrite (mset_shape _ _ _ _ _ Hba), (mset_shape _ _ _ _ _ Hb).
    + intros j k.
      rewrite (mget_mset _ _ _ _ _ _ _ Hab), (mget_mset _ _ _ _ _ _ _ Ha).
      rewrite (mget_mset _ _ _ _ _ _ _ Hba), (mget_mset _ _ _ _ _ _ _ Hb).
      repeat case_decide; intuition congruence.
  - specialize (Hnone j2 k2 x2 j1 k1 x1). rewrite Ha in Hnone. simpl in Hnone.
    apply Hnone; [congruence|done].
  - specialize (Hnone j1 k1 x1 j2 k2 x2 Hne Ha). by rewrite Hb in Hnone.
  - done.
Qed.

End views.

Section heaps.

Context {T : Type} (mul : T → T → T).
Implicit Types (h : gmap nat (list (list T))) (m : list (list T)).
Implicit Types (X Xc c p : nat) (i r j k n nx : Z).

Lemma read_cell p j k h :
  read T p j k h = from_option Done Undefined (cell T h p j k).
Proof. unfold read, cell. by destruct (h !! p ≫= _). Qed.

Lemma cell_insert h c m p j k :
  cell T (<[c := m]> h) p j k =
    if decide (p = c) then mget T m j k else cell T h p j k.
Proof.
  unfold cell. case_decide as Hp.
  - subst. by rewrite lookup_insert_eq.
  - by rewrite lookup_insert_ne.
Qed.

Lemma assign_unfold X Xc c i r j k h :
  assign T mul X Xc c i r j k h =
    match product_at T mul h X Xc i r k with
    | Some v => write T c j k v h
    | None => Undefined
    end.
Proof.
  unfold assign, product_at. rewrite !read_cell.
  destruct (cell T h X i k); simpl; [|done].
  by destruct (cell T h Xc r k).
Qed.

(** What a completed assignment did. *)
Lemma assign_Done X Xc c i r j k h h' :
  assign T mul X Xc c i r j k h = Done h' ↔
  ∃ v m m', product_at T mul h X Xc i r k = Some v ∧ h !! c = Some m ∧
            mset T m j k v = Some m' ∧ h' = <[c := m']> h.
Proof.
  rewrite assign_unfold. unfold write.
  destruct (product_at T mul h X Xc i r k) as [v|];
    [|split; [done|by intros (? & ? & ? & ? & _)]].
  destruct (h !! c) as [m|]; simpl;
    [|split; [done|by intros (? & ? & ? & _ & ? & _)]].
  destruct (mset T m j k v) as [m'|] eqn:Hm; split.
  - intros [= <-]. by exists v, m, m'.
  - intros (? & ? & ? & ? & ? & ? & ->). by simplify_eq.
  - done.
  - intros (? & ? & ? & ? & ? & ? & _). by simplify_eq.
Qed.

Lemma assign_not_Raised X Xc c i r j k h e :
  assign T mul X Xc c i r j k h ≠ Raised e.
Proof.
  rewrite assign_unfold. unfold write.
  destruct (product_at T mul h X Xc i r k); [|done].
  by destruct (h !! c ≫= _).
Qed.

(** An assignment changes one element of [c] and nothing else. *)
Lemma assign_cell X Xc c i r j k h h' :
  assign T mul X Xc c i r j k h = Done h' →
  ∃ v, product_at T mul h X Xc i r k = Some v ∧ is_Some (cell T h c j k) ∧
    ∀ p j' k', cell T h' p j' k' =
      if decide (p = c ∧ j' = j ∧ k' = k) then Some v else cell T h p j' k'.
Proof.
  intros (v & m & m' & Hv & Hc & Hm & ->)%assign_Done. exists v.
  split; [done|]. split.
  { unfold cell. rewrite Hc. simpl.
    apply (proj1 (mset_is_Some m j k v)). eauto. }
  intros p j' k'. rewrite cell_insert.
  destruct (decide (p = c)) as [->|Hp].
  - rewrite (mget_mset _ _ _ _ _ _ _ Hm). unfold cell. rewrite Hc. simpl.
    repeat case_decide; intuition congruence.
  - rewrite decide_False by (by intros [? _]). done.
Qed.

Lemma assign_frame X Xc c i r j k h h' p :
  assign T mul X Xc c i r j k h = Done h' → p ≠ c → h' !! p = h !! p.
Proof.
  intros (v & m & m' & _ & _ & _ & ->)%assign_Done Hp.
  by rewrite lookup_insert_ne.
Qed.

Lemma assign_shapes X Xc c i r j k h h' :
  assign T mul X Xc c i r j k h = Done h' →
  shape_of T <$> h' = shape_of T <$> h.
Proof.
  intros (v & m & m' & _ & Hc & Hm & ->)%assign_Done.
  rewrite fmap_insert, (mset_shape _ _ _ _ _ Hm).
  apply insert_id. by rewrite lookup_fmap, Hc.
Qed.

(** Whether an element exists depends on the shapes only. *)
Lemma cell_is_Some_shapes h1 h2 p j k :
  shape_of T <$> h1 = shape_of T <$> h2 →
  is_Some (cell T h1 p j k) → is_Some (cell T h2 p j k).
Proof.
  intros Hs [x Hx]. unfold cell in *.
  apply bind_Some in Hx as (m1 & H1 & Hx).
  assert ((shape_of T <$> h2) !! p = Some (shape_of T m1)) as H2.
  { by rewrite <- Hs, lookup_fmap, H1. }
  rewrite lookup_fmap in H2. apply fmap_Some in H2 as (m2 & -> & Hm). simpl.
  apply mget_is_Some. rewrite <- Hm. apply mget_is_Some. eauto.
Qed.

Lemma assign_is_Done X Xc c i r j k h :
  is_Some (cell T h X i k) → is_Some (cell T h Xc r k) →
  is_Some (cell T h c j k) →
  ∃ h', assign T mul X Xc c i r j k h = Done h'.
Proof.
  intros [x Hx] [y Hy] [z Hz]. unfold cell in Hz.
  apply bind_Some in Hz as (m & Hm & Hz).
  destruct (proj2 (mset_is_Some m j k (mul x y)) (mk_is_Some _ _ Hz)) as [m' Hm'].
  exists (<[c := m']> h). apply assign_Done. exists (mul x y), m, m'.
  unfold product_at. rewrite Hx, Hy. done.
Qed.

(** With [c] a buffer of its own, an assignment is a write into [c] of a
    value read from the rest of the heap. *)
Lemma product_at_insert h X Xc c m i r k :
  c ≠ X → c ≠ Xc →
  product_at T mul (<[c := m]> h) X Xc i r k = product_at T mul h X Xc i r k.
Proof.
  intros HX HXc. unfold product_at.
  by rewrite !cell_insert, !decide_False by done.
Qed.

Lemma assign_insert X Xc c i r j k h m :
  c ≠ X → c ≠ Xc →
  assign T mul X Xc c i r j k (<[c := m]> h) =
    match product_at T mul h X Xc i r k ≫= mset T m j k with
    | Some m' => Done (<[c := m']> h)
    | None => Undefined
    end.
Proof.
  intros HX HXc. rewrite assign_unfold, product_at_insert by done.
  destruct (product_at T mul h X Xc i r k) as [v|]; simpl; [|done].
  unfold write. rewrite lookup_insert_eq. simpl.
  destruct (mset T m j k v); [|done]. by rewrite insert_insert_eq.
Qed.

Lemma assign_no_buffer X Xc c i r j k h :
  h !! c = None → assign T mul X Xc c i r j k h = Undefined.
Proof.
  intros Hc. rewrite assign_unfold. unfold write. rewrite Hc.
  by destruct (product_at T mul h X Xc i r k).
Qed.

(** Assignments to different elements of [c] commute when [c] is a buffer
    of its own. *)
Lemma assign_comm X Xc c i1 r1 j1 k1 i2 r2 j2 k2 h :
  c ≠ X → c ≠ Xc → (j1, k1) ≠ (j2, k2) →
  assign T mul X Xc c i1 r1 j1 k1 h ≫= assign T mul X Xc c i2 r2 j2 k2 =
  assign T mul X Xc c i2 r2 j2 k2 h ≫= assign T mul X Xc c i1 r1 j1 k1.
Proof.
  intros HX HXc Hne.
  destruct (h !! c) as [m|] eqn:Hc;
    [|by rewrite !assign_no_buffer by done].
  assert (∃ h0, h = <[c := m]> h0) as [h0 ->]
    by (exists h; by rewrite insert_id).
  clear Hc. rewrite !assign_insert by done.
  destruct (product_at T mul h0 X Xc i1 r1 k1) as [v1|] eqn:H1;
    destruct (product_at T mul h0 X Xc i2 r2 k2) as [v2|] eqn:H2; simpl.
  - pose proof (mset_comm m j1 k1 v1 j2 k2 v2 Hne) as Hcomm.
    destruct (mset T m j1 k1 v1) as [ma|]; destruct (mset T m j2 k2 v2) as [mb|];
      simpl in *; rewrite ?assign_insert, ?H1, ?H2 by done; simpl;
      rewrite <- ?Hcomm, ?Hcomm; done.
  - destruct (mset T m j1 k1 v1) as [ma|]; simpl; [|done].
    by rewrite assign_insert, H2 by done.
  - destruct (mset T m j2 k2 v2) as [mb|]; simpl; [|done].
    by rewrite assign_insert, H1 by done.
  - done.
Qed.

End heaps.

(** ** The iteration space of the cross-correlator *)

Section steps.

Context {T : Type} (mul : T → T → T).
Implicit Types (h : gmap nat (list (list T))) (m : list (list T)).
Implicit Types (X Xc c p : nat) (i r j k n nx : Z).
Implicit Types (steps : list (Z * Z * Z * Z)).

Lemma outcome_bind_Done {A : Type} (o : outcome A) : o ≫= Done = o.
Proof. by destruct o. Qed.

Lemma block_run_steps X Xc c n nx i h :
  block T mul X Xc c n nx i h =
    run_steps T mul X Xc c (block_steps n nx i) h.
Proof.
  unfold block, run_steps, block_steps.
  rewrite <- for_each_flatten. apply for_each_ext. intros [r j] s _.
  rewrite <- for_each_flatten. apply for_each_ext. intros k s' _.
  simpl. by rewrite outcome_bind_Done.
Qed.

(** Running the blocks in some order is running their assignments. *)
Lemma run_blocks_run_steps X Xc c n nx sched h :
  run_blocks T mul X Xc c n nx sched h =
    run_steps T mul X Xc c (sched ≫= block_steps n nx) h.
Proof.
  unfold run_blocks, run_steps. rewrite <- for_each_flatten.
  apply for_each_ext. intros i s _. apply block_run_steps.
Qed.

Lemma elem_of_block_steps n nx i i' r j k :
  (i', r, j, k) ∈ block_steps n nx i ↔
  i' = i ∧ 0 ≤ r < n ∧ j = i * n + r ∧ 0 ≤ k < nx.
Proof.
  unfold block_steps. rewrite list_elem_of_bind. split.
  - intros ([r' j'] & Hk & Hrj). apply elem_of_enumerate_xrange in Hrj.
    apply list_elem_of_bind in Hk as (k' & Hs & Hk).
    apply list_elem_of_singleton in Hs as [= -> -> -> ->].
    apply elem_of_xrange in Hk. lia.
  - intros (-> & Hr & -> & Hk). exists (r, i * n + r). split.
    + apply list_elem_of_bind. exists k. split; [by left|].
      apply elem_of_xrange. lia.
    + apply elem_of_enumerate_xrange. lia.
Qed.

Lemma elem_of_all_steps n nx i r j k :
  (i, r, j, k) ∈ all_steps n nx ↔
  0 ≤ i < n ∧ 0 ≤ r < n ∧ j = i * n + r ∧ 0 ≤ k < nx.
Proof.
  unfold all_steps. rewrite list_elem_of_bind. split.
  - intros (i' & (-> & ? & ? & ?)%elem_of_block_steps & Hi%elem_of_xrange).
    lia.
  - intros (Hi & Hr & Hj & Hk). exists i. split.
    + by apply elem_of_block_steps.
    + apply elem_of_xrange. lia.
Qed.

(** Different assignments of a call write different elements of [c]. *)
Lemma all_steps_target_inj n nx i1 r1 j1 k1 i2 r2 j2 k2 :
  (i1, r1, j1, k1) ∈ all_steps n nx → (i2, r2, j2, k2) ∈ all_steps n nx →
  (j1, k1) = (j2, k2) → (i1, r1, j1, k1) = (i2, r2, j2, k2).
Proof.
  intros (H1 & Hr1 & -> & _)%elem_of_all_steps
         (H2 & Hr2 & -> & _)%elem_of_all_steps [= Hj ->].
  assert (i1 = i2) as -> by nia. assert (r1 = r2) as -> by lia. done.
Qed.

(** The sequential schedule is a schedule of every order of the blocks. *)
Lemma sched_steps_Permutation n nx sched :
  sched ≡ₚ xrange 0 n → sched ≫= block_steps n nx ≡ₚ all_steps n nx.
Proof. intros Hp. unfold all_steps. by rewrite Hp. Qed.

End steps.

(** ** Runs of assignments *)

Section runs.

Context {T : Type} (mul : T → T → T).
Implicit Types (h : gmap nat (list (list T))) (m : list (list T)).
Implicit Types (X Xc c p : nat) (i r j k n nx : Z).
Implicit Types (steps : list (Z * Z * Z * Z)).

Lemma run_steps_cons X Xc c i r j k steps h :
  run_steps T mul X Xc c ((i, r, j, k) :: steps) h =
    assign T mul X Xc c i r j k h ≫= run_steps T mul X Xc c steps.
Proof. done. Qed.

(** A run whose accesses all fall inside the buffers completes, and keeps
    the shape of every buffer. *)
Lemma run_steps_is_Done X Xc c steps h :
  (∀ i r j k, (i, r, j, k) ∈ steps →
     is_Some (cell T h X i k) ∧ is_Some (cell T h Xc r k) ∧
     is_Some (cell T h c j k)) →
  ∃ h', run_steps T mul X Xc c steps h = Done h' ∧
        shape_of T <$> h' = shape_of T <$> h.
Proof.
  revert h. induction steps as [|[[[i r] j] k] steps IH]; intros h Hin.
  { by exists h. }
  destruct (Hin i r j k) as (HX & HXc & Hc); [left|].
  destruct (assign_is_Done mul X Xc c i r j k h HX HXc Hc) as [h1 H1].
  pose proof (assign_shapes _ _ _ _ _ _ _ _ _ _ H1) as Hs.
  destruct (IH h1) as (h' & Hrun & Hs').
  { intros i' r' j' k' Hel.
    destruct (Hin i' r' j' k') as (? & ? & ?); [by right|].
    split_and!; (eapply cell_is_Some_shapes; [symmetry; exact Hs|done]). }
  exists h'. rewrite run_steps_cons, H1. simpl. split; [done|congruence].
Qed.

(** A run writes only to [c], and there only the elements it assigns. *)
Lemma run_steps_frame X Xc c steps h h' :
  run_steps T mul X Xc c steps h = Done h' →
  (∀ p, p ≠ c → h' !! p = h !! p) ∧
  (∀ p j k, (∀ i r, (i, r, j, k) ∉ steps) →
     cell T h' p j k = cell T h p j k).
Proof.
  revert h. induction steps as [|[[[i r] j] k] steps IH]; intros h.
  { by intros [= ->]. }
  rewrite run_steps_cons.
  destruct (assign T mul X Xc c i r j k h) as [h1| |] eqn:H1; simpl; [|done..].
  intros [IH1 IH2]%IH. split.
  - intros p Hp. rewrite IH1 by done. by eapply assign_frame.
  - intros p j' k' Hnot. rewrite IH2.
    + destruct (assign_cell _ _ _ _ _ _ _ _ _ _ H1) as (v & _ & _ & Hcell).
      rewrite Hcell, decide_False; [done|].
      intros (-> & -> & ->). apply (Hnot i r). left.
    + intros i' r' Hel. apply (Hnot i' r'). by right.
Qed.

(** When no assignment reads an element that another one writes, every
    assigned element ends up holding the product of the values [X] and
    [Xc] had before the run. *)
Lemma run_steps_values X Xc c steps h h' :
  run_steps T mul X Xc c steps h = Done h' →
  (∀ i1 r1 j1 k1 i2 r2 j2 k2,
     (i1, r1, j1, k1) ∈ steps → (i2, r2, j2, k2) ∈ steps →
     (j1, k1) = (j2, k2) → (i1, r1, j1, k1) = (i2, r2, j2, k2)) →
  NoDup steps →
  (∀ i1 r1 j1 k1 i2 r2 j2 k2,
     (i1, r1, j1, k1) ∈ steps → (i2, r2, j2, k2) ∈ steps →
     (i1, r1, j1, k1) ≠ (i2, r2, j2, k2) →
     (X = c → (i1, k1) ≠ (j2, k2)) ∧ (Xc = c → (r1, k1) ≠ (j2, k2))) →
  ∀ i r j k, (i, r, j, k) ∈ steps →
    is_Some (product_at T mul h X Xc i r k) ∧
    cell T h' c j k = product_at T mul h X Xc i r k.
Proof.
  revert h. induction steps as [|[[[i0 r0] j0] k0] steps IH];
    intros h Hrun Hinj Hnd Hhaz i r j k Hel.
  { by apply elem_of_nil in Hel. }
  rewrite run_steps_cons in Hrun.
  destruct (assign T mul X Xc c i0 r0 j0 k0 h) as [h1| |] eqn:H1;
    simpl in Hrun; [|done..].
  destruct (assign_cell _ _ _ _ _ _ _ _ _ _ H1) as (v & Hv & _ & Hcell).
  apply NoDup_cons in Hnd as [Hnotin Hnd].
  apply elem_of_cons in Hel as [[= -> -> -> ->]|Hel].
  - rewrite Hv. split; [done|].
    destruct (run_steps_frame _ _ _ _ _ _ Hrun) as [_ Hfr].
    rewrite Hfr, Hcell, decide_True; [done..|].
    intros i' r' Hel'. apply Hnotin.
    assert ((i', r', j0, k0) = (i0, r0, j0, k0)) as <-; [|done].
    apply Hinj; [by right|left|done].
  - assert (product_at T mul h1 X Xc i r k = product_at T mul h X Xc i r k)
      as Hprod.
    { assert ((i, r, j, k) ≠ (i0, r0, j0, k0)) as Hne by (by intros [= -> -> -> ->]).
      destruct (Hhaz i r j k i0 r0 j0 k0) as [HX HXc];
        [by right|left|done|].
      unfold product_at. rewrite !Hcell, !decide_False; [done|..].
      - intros (Hal & -> & ->). by apply HX.
      - intros (Hal & -> & ->). by apply HXc. }
    rewrite <- Hprod. apply (IH h1); [done| | done| |done].
    + intros i1 r1 j1 k1 i2 r2 j2 k2 Ha Hb Heq.
      apply Hinj; [by right|by right|done].
    + intros i1 r1 j1 k1 i2 r2 j2 k2 Ha Hb Hne.
      apply (Hhaz i1 r1 j1 k1 i2 r2 j2 k2); [by right|by right|done].
Qed.

(** With [c] a buffer of its own, assignments to different elements may
    run in any order. *)
Lemma run_steps_Permutation X Xc c steps steps' h :
  c ≠ X → c ≠ Xc →
  (∀ i1 r1 j1 k1 i2 r2 j2 k2,
     (i1, r1, j1, k1) ∈ steps → (i2, r2, j2, k2) ∈ steps →
     (j1, k1) = (j2, k2) → (i1, r1, j1, k1) = (i2, r2, j2, k2)) →
  steps ≡ₚ steps' →
  run_steps T mul X Xc c steps h = run_steps T mul X Xc c steps' h.
Proof.
  intros HX HXc Hinj Hp. unfold run_steps.
  apply for_each_Permutation; [done|].
  intros [[[i1 r1] j1] k1] [[[i2 r2] j2] k2] s H1 H2 Hne.
  apply assign_comm; [done..|].
  intros Heq. apply Hne. by eapply Hinj.
Qed.

End runs.

(** ** Shapes *)

Section shapes.

Context {T : Type}.
Implicit Types (m : list (list T)) (j k rows cols : Z).

Lemma has_shape_mget m rows cols j k :
  has_shape T m rows cols →
  is_Some (mget T m j k) ↔ 0 ≤ j < rows ∧ 0 ≤ k < cols.
Proof.
  intros (Hrows & Hcols & Hall). rewrite Forall_lookup in Hall. split.
  - intros [x (Hj & Hk & row & Hr & Hx)%mget_Some].
    pose proof (lookup_lt_Some _ _ _ Hr). pose proof (lookup_lt_Some _ _ _ Hx).
    specialize (Hall _ _ Hr). simpl in Hall. lia.
  - intros [Hj Hk].
    destruct (lookup_lt_is_Some_2 m (Z.to_nat j)) as [row Hr]; [lia|].
    specialize (Hall _ _ Hr). simpl in Hall.
    destruct (lookup_lt_is_Some_2 row (Z.to_nat k)) as [x Hx]; [lia|].
    exists x. apply mget_Some. split_and!; [lia..|]. eauto.
Qed.

Lemma has_shape_shape_of m rows cols :
  has_shape T m rows cols ↔
  0 ≤ rows ∧ 0 ≤ cols ∧
  shape_of T m = replicate (Z.to_nat rows) (Z.to_nat cols).
Proof.
  unfold has_shape, shape_of. split.
  - intros (Hrows & Hcols & Hall). split_and!; [lia..|].
    apply list_eq_same_length with (length m).
    + rewrite length_replicate. lia.
    + by rewrite length_fmap.
    + intros i a b Hi Ha Hb. apply lookup_replicate in Hb as [-> _].
      rewrite list_lookup_fmap in Ha. apply fmap_Some in Ha as (row & Hr & ->).
      rewrite Forall_lookup in Hall. specialize (Hall _ _ Hr). simpl in Hall. lia.
  - intros (Hrows & Hcols & Heq). split_and!; [|done|].
    + apply (f_equal length) in Heq.
      rewrite length_fmap, length_replicate in Heq. lia.
    + apply Forall_lookup. intros i row Hr.
      assert ((length <$> m) !! i = Some (length row)) as Hl
        by by rewrite list_lookup_fmap, Hr.
      rewrite Heq in Hl. apply lookup_replicate in Hl as [Hl _]. lia.
Qed.

Lemma has_shape_preserved m m' rows cols :
  has_shape T m rows cols → shape_of T m' = shape_of T m →
  has_shape T m' rows cols.
Proof. rewrite !has_shape_shape_of. intros (? & ? & <-) ->. done. Qed.

End shapes.

Section shapes_heap.

Context {T : Type} (mul : T → T → T).
Implicit Types (h : gmap nat (list (list T))) (m : list (list T)).
Implicit Types (X Xc c p : nat) (i r j k n nx : Z).

Lemma cell_lookup h p m j k : h !! p = Some m → cell T h p j k = mget T m j k.
Proof. intros Hp. unfold cell. by rewrite Hp. Qed.

Lemma shapes_lookup h h' p m :
  shape_of T <$> h' = shape_of T <$> h → h !! p = Some m →
  ∃ m', h' !! p = Some m' ∧ shape_of T m' = shape_of T m.
Proof.
  intros Hs Hp.
  assert ((shape_of T <$> h') !! p = Some (shape_of T m)) as Hl
    by by rewrite Hs, lookup_fmap, Hp.
  rewrite lookup_fmap in Hl. apply fmap_Some in Hl as (m' & ? & ?). eauto.
Qed.

Lemma run_steps_shapes X Xc c steps h h' :
  run_steps T mul X Xc c steps h = Done h' →
  shape_of T <$> h' = shape_of T <$> h.
Proof.
  revert h. induction steps as [|[[[i r] j] k] steps IH]; intros h.
  { by intros [= ->]. }
  rewrite run_steps_cons.
  destruct (assign T mul X Xc c i r j k h) as [h1| |] eqn:H1; simpl; [|done..].
  intros ->%IH. by eapply assign_shapes.
Qed.

Lemma NoDup_block_steps n nx i : NoDup (block_steps n nx i).
Proof.
  unfold block_steps. apply NoDup_bind.
  - intros [r1 j1] [r2 j2] [[[i' r] j] k] _ _.
    intros (k1 & Hs1 & _)%list_elem_of_bind (k2 & Hs2 & _)%list_elem_of_bind.
    apply list_elem_of_singleton in Hs1, Hs2. congruence.
  - intros [r j] _. apply NoDup_bind.
    + intros k1 k2 s _ _ H1%list_elem_of_singleton H2%list_elem_of_singleton.
      congruence.
    + intros k _. apply NoDup_singleton.
    + apply NoDup_xrange.
  - apply NoDup_zip_r, NoDup_xrange.
Qed.

Lemma NoDup_all_steps n nx : NoDup (all_steps n nx).
Proof.
  unfold all_steps. apply NoDup_bind.
  - intros i1 i2 [[[i r] j] k] _ _.
    intros (-> & _)%elem_of_block_steps (-> & _)%elem_of_block_steps. done.
  - intros i _. apply NoDup_block_steps.
  - apply NoDup_xrange.
Qed.

(** Under the shapes of the contract every access of a call is in bounds. *)
Lemma all_steps_in_bounds h X Xc c n nx mX mXc mc i r j k :
  h !! X = Some mX → h !! Xc = Some mXc → h !! c = Some mc →
  has_shape T mX n nx → has_shape T mXc (n * n) nx →
  has_shape T mc (n * n) nx →
  (i, r, j, k) ∈ all_steps n nx →
  is_Some (cell T h X i k) ∧ is_Some (cell T h Xc r k) ∧
  is_Some (cell T h c j k).
Proof.
  intros HX HXc Hc SX SXc Sc (Hi & Hr & -> & Hk)%elem_of_all_steps.
  rewrite (cell_lookup _ _ _ _ _ HX), (cell_lookup _ _ _ _ _ HXc),
    (cell_lookup _ _ _ _ _ Hc).
  rewrite (has_shape_mget _ _ _ _ _ SX), (has_shape_mget _ _ _ _ _ SXc),
    (has_shape_mget _ _ _ _ _ Sc). nia.
Qed.

(** [_mult_mat_xcorr] on a heap that meets the contract, with [c] not the
    buffer of [Xc]. *)
Lemma mult_mat_xcorr_products h X Xc c n nx mX mXc mc :
  h !! X = Some mX → h !! Xc = Some mXc → h !! c = Some mc →
  has_shape T mX n nx → has_shape T mXc (n * n) nx →
  has_shape T mc (n * n) nx →
  c ≠ Xc →
  ∃ h' mc', mult_mat_xcorr T mul X Xc c n nx h = Done h' ∧
    (∀ p, p ≠ c → h' !! p = h !! p) ∧
    h' !! c = Some mc' ∧ has_shape T mc' (n * n) nx ∧
    ∀ i r k, 0 ≤ i < n → 0 ≤ r < n → 0 ≤ k < nx →
      ∃ x y, mget T mX i k = Some x ∧ mget T mXc r k = Some y ∧
             mget T mc' (i * n + r) k = Some (mul x y).
Proof.
  intros HX HXc Hc SX SXc Sc Hal.
  unfold mult_mat_xcorr, _mult_mat_xcorr.
  rewrite run_blocks_run_steps. fold (all_steps n nx).
  destruct (run_steps_is_Done mul X Xc c (all_steps n nx) h) as (h' & Hrun & Hs).
  { intros i r j k. by eapply all_steps_in_bounds. }
  destruct (shapes_lookup _ _ _ _ Hs Hc) as (mc' & Hc' & Hsc).
  exists h', mc'. split; [done|]. split.
  { by destruct (run_steps_frame _ _ _ _ _ _ _ Hrun). }
  split; [done|]. split; [by eapply has_shape_preserved|].
  intros i r k Hi Hr Hk.
  assert ((i, r, i * n + r, k) ∈ all_steps n nx) as Hel
    by by apply elem_of_all_steps.
  destruct (run_steps_values mul X Xc c _ _ _ Hrun) with i r (i * n + r) k
    as [[v Hv] Hcell]; [| | |done|].
  - intros ????????. apply all_steps_target_inj.
  - apply NoDup_all_steps.
  - intros i1 r1 j1 k1 i2 r2 j2 k2.
    intros (H1 & Hr1 & -> & _)%elem_of_all_steps
           (H2 & Hr2 & -> & _)%elem_of_all_steps Hne.
    split; [|by intros ->]. intros ->.
    assert (mX = mc) as -> by congruence.
    destruct SX as (SX & _), Sc as (Sc & _).
    assert (n = 1) by nia. intros [= -> ->]. apply Hne.
    assert (i2 = 0 ∧ r1 = 0 ∧ r2 = 0) as (-> & -> & ->) by lia. done.
  - rewrite Hv in Hcell. rewrite (cell_lookup _ _ _ _ _ Hc') in Hcell.
    unfold product_at in Hv.
    rewrite (cell_lookup _ _ _ _ _ HX), (cell_lookup _ _ _ _ _ HXc) in Hv.
    destruct (mget T mX i k) as [x|]; simpl in Hv; [|done].
    destruct (mget T mXc r k) as [y|]; simpl in Hv; [|done].
    exists x, y. by simplify_eq.
Qed.

End shapes_heap.

Lemma take_mget {T : Type} (m1 m2 : list (list T)) (n j k : Z) :
  take (Z.to_nat n) m1 = take (Z.to_nat n) m2 → 0 ≤ j < n →
  mget T m1 j k = mget T m2 j k.
Proof.
  intros Ht Hj. unfold mget. case_decide; [|done].
  rewrite <- (lookup_take_lt m1 (Z.to_nat n)), <- (lookup_take_lt m2 (Z.to_nat n))
    by lia. by rewrite Ht.
Qed.

(** The assignments of a call on buffers that meet the contract, [c]
    being neither [X] nor [Xc]: run in any order they end in one heap, in
    which [c] holds the products. *)
Lemma run_steps_contract {T : Type} (mul : T → T → T)
    (h : gmap nat (list (list T))) (X Xc c : nat) (n nx : Z)
    (mX mXc mc : list (list T)) :
  h !! X = Some mX → h !! Xc = Some mXc → h !! c = Some mc →
  has_shape T mX n nx → has_shape T mXc (n * n) nx →
  has_shape T mc (n * n) nx →
  c ≠ X → c ≠ Xc →
  ∃ h' mc',
    (∀ steps, steps ≡ₚ all_steps n nx →
       run_steps T mul X Xc c steps h = Done h') ∧
    h' !! c = Some mc' ∧ has_shape T mc' (n * n) nx ∧
    ∀ i r k, 0 ≤ i < n → 0 ≤ r < n → 0 ≤ k < nx →
      ∃ x y, mget T mX i k = Some x ∧ mget T mXc r k = Some y ∧
             mget T mc' (i * n + r) k = Some (mul x y).
Proof.
  intros HX HXc Hc SX SXc Sc HcX HcXc.
  destruct (mult_mat_xcorr_products mul h X Xc c n nx mX mXc mc)
    as (h' & mc' & Hrun & _ & Hc' & Sc' & Hval); [done..|].
  exists h', mc'. split_and!; [|done..].
  intros steps Hp. rewrite <- Hrun.
  unfold mult_mat_xcorr, _mult_mat_xcorr.
  rewrite run_blocks_run_steps. fold (all_steps n nx).
  apply run_steps_Permutation; [done..| |done].
  intros i1 r1 j1 k1 i2 r2 j2 k2 H1 H2.
  apply (all_steps_target_inj n nx); by rewrite <- Hp.
Qed.

(** The products of the rows of [X] with rows [0 .. n-1] of [Xc] fix a
    view of shape [(n*n, nx)]. *)
Lemma products_unique {T : Type} (mul : T → T → T) (n nx : Z)
    (mX mXc1 mXc2 m1 m2 : list (list T)) :
  has_shape T mX n nx →
  has_shape T m1 (n * n) nx → has_shape T m2 (n * n) nx →
  take (Z.to_nat n) mXc1 = take (Z.to_nat n) mXc2 →
  (∀ i r k, 0 ≤ i < n → 0 ≤ r < n → 0 ≤ k < nx →
     ∃ x y, mget T mX i k = Some x ∧ mget T mXc1 r k = Some y ∧
            mget T m1 (i * n + r) k = Some (mul x y)) →
  (∀ i r k, 0 ≤ i < n → 0 ≤ r < n → 0 ≤ k < nx →
     ∃ x y, mget T mX i k = Some x ∧ mget T mXc2 r k = Some y ∧
            mget T m2 (i * n + r) k = Some (mul x y)) →
  m1 = m2.
Proof.
  intros SX S1 S2 Htake H1 H2. apply view_ext.
  { apply has_shape_shape_of in S1 as (_ & _ & ->).
    by apply has_shape_shape_of in S2 as (_ & _ & ->). }
  intros j k.
  destruct (decide (0 ≤ j < n * n ∧ 0 ≤ k < nx)) as [[Hj Hk]|Hout].
  - assert (0 ≤ n) by (destruct SX as [<- _]; lia). assert (0 < n) by nia.
    pose proof (Z.mod_pos_bound j n ltac:(lia)).
    pose proof (Z.div_mod j n ltac:(lia)).
    assert (0 ≤ j `div` n) by (apply Z.div_pos; lia).
    assert (j `div` n < n) by (apply Z.div_lt_upper_bound; lia).
    destruct (H1 (j `div` n) (j `mod` n) k) as (x1 & y1 & Hx1 & Hy1 & Hm1);
      [lia..|].
    destruct (H2 (j `div` n) (j `mod` n) k) as (x2 & y2 & Hx2 & Hy2 & Hm2);
      [lia..|].
    rewrite (take_mget mXc1 mXc2 n (j `mod` n) k Htake) in Hy1 by lia.
    replace (j `div` n * n + j `mod` n) with j in Hm1, Hm2 by lia.
    rewrite Hm1, Hm2. congruence.
  - assert (mget T m1 j k = None) as ->.
    { apply eq_None_not_Some. intros Hsome. apply Hout.
      by apply (proj1 (has_shape_mget m1 _ _ j k S1)). }
    symmetry. apply eq_None_not_Some. intros Hsome. apply Hout.
    by apply (proj1 (has_shape_mget m2 _ _ j k S2)).
Qed.

(** ** The cross-correlator: results *)

(** The shape of a concrete view. *)
Ltac shape_ok :=
  unfold has_shape; split_and!; [reflexivity|lia|by repeat constructor].

(** Two binary64 values that [PrimFloat.eqb] tells apart are different. *)
Lemma f8_Some_neq (x y : f8) :
  PrimFloat.eqb x x = true → PrimFloat.eqb x y = false → Some x ≠ Some y.
Proof.
  intros Hx Hy H. apply (f_equal (from_option (PrimFloat.eqb x) false)) in H.
  simpl in H. congruence.
Qed.

(** C1 (amended). For every call [mult_mat_xcorr(X, Xc, c, n, nx)] with [X]
    of shape [(n, nx)], [Xc] and [c] of shape [(n*n, nx)] and [c] sharing no
    memory with [X] or with [Xc] (a buffer of its own), the call returns and
    afterwards, for every block [i] and every [r] in [0, n), row [i*n + r]
    of [c] holds the products of row [i] of [X] with row [r] of [Xc] (the
    values before the call): the row of [Xc] is [r], not [i*n + r].  For
    [n = 2], [nx = 1], [X = [[2],[3]]], [Xc = [[1],[2],[3],[4]]] the result
    is [[[2],[4],[3],[6]]]. *)
Theorem mult_mat_xcorr_blocks :
  (∀ (T : Type) (mul : T → T → T) (h : gmap nat (list (list T)))
     (X Xc c : nat) (n nx : Z) (mX mXc mc : list (list T)),
     h !! X = Some mX → h !! Xc = Some mXc → h !! c = Some mc →
     has_shape T mX n nx → has_shape T mXc (n * n) nx →
     has_shape T mc (n * n) nx →
     c ≠ X → c ≠ Xc →
     ∃ h' mc', mult_mat_xcorr T mul X Xc c n nx h = Done h' ∧
       h' !! c = Some mc' ∧ has_shape T mc' (n * n) nx ∧
       ∀ i r k, 0 ≤ i < n → 0 ≤ r < n → 0 ≤ k < nx →
         ∃ x y, mget T mX i k = Some x ∧ mget T mXc r k = Some y ∧
                mget T mc' (i * n + r) k = Some (mul x y)) ∧
  mult_mat_xcorr f8 f8_mul 0 1 2 2 1 ex_heap =
    Done (<[2%nat := [[2%float]; [4%float]; [3%float]; [6%float]]]> ex_heap).
Proof.
  split; [|by vm_compute].
  intros T mul h X Xc c n nx mX mXc mc HX HXc Hc SX SXc Sc _ Hal.
  destruct (mult_mat_xcorr_products mul h X Xc c n nx mX mXc mc)
    as (h' & mc' & Hrun & _ & Hc' & Sc' & Hval); [done..|].
  exists h', mc'. split_and!; done.
Qed.

Lemma mult_mat_xcorr_blocks_witness :
  ∃ h' mc', mult_mat_xcorr f8 f8_mul 0 1 2 2 1 ex_heap = Done h' ∧
    h' !! 2%nat = Some mc' ∧ has_shape f8 mc' (2 * 2) 1 ∧
    ∀ i r k, 0 ≤ i < 2 → 0 ≤ r < 2 → 0 ≤ k < 1 →
      ∃ x y, mget f8 ex_X i k = Some x ∧ mget f8 ex_Xc r k = Some y ∧
             mget f8 mc' (i * 2 + r) k = Some (f8_mul x y).
Proof.
  apply (proj1 mult_mat_xcorr_blocks f8 f8_mul ex_heap 0%nat 1%nat 2%nat 2 1
           ex_X ex_Xc ex_c); try reflexivity; try lia; shape_ok.
Defined.

(** C1 as stated fails on its own example: row 2 of [c] is
    [X[1] * Xc[0] = 3], not [X[1] * Xc[2] = 9], so the result is not
    [[[2],[4],[9],[12]]].  And when [c] is the buffer of [Xc], row 2 of
    [c] is not [X[1] * Xc[0]] either, for the values [Xc] had before the
    call; nor is it when the rows of [X] are rows of [c] (here
    [c = [[2],[3],[0],[0]]] with [X] its first rows and [Xc] two rows
    [[1]]): iteration 0 overwrites row 1 before iteration 1 reads it, and
    row 2 of [c] ends as 2, not [X[1] * Xc[0] = 3]. *)
Lemma mult_mat_xcorr_spec_example_fails :
  (∃ h', mult_mat_xcorr f8 f8_mul 0 1 2 2 1 ex_heap = Done h' ∧
     h' !! 2%nat ≠ Some [[2%float]; [4%float]; [9%float]; [12%float]] ∧
     cell f8 h' 2 2 0 = Some 3%float ∧
     product_at f8 f8_mul ex_heap 0 1 1 2 0 = Some 9%float ∧
     cell f8 h' 2 2 0 ≠ product_at f8 f8_mul ex_heap 0 1 1 2 0) ∧
  (∃ h', mult_mat_xcorr f8 f8_mul 0 1 1 2 1 ex_alias_heap = Done h' ∧
     cell f8 h' 1 2 0 = Some 6%float ∧
     product_at f8 f8_mul ex_alias_heap 0 1 1 0 0 = Some 3%float ∧
     cell f8 h' 1 2 0 ≠ product_at f8 f8_mul ex_alias_heap 0 1 1 0 0) ∧
  (∃ h', mult_mat_xcorr f8 f8_mul 0 1 0 2 1 ex_alias_X_heap = Done h' ∧
     cell f8 h' 0 2 0 = Some 2%float ∧
     product_at f8 f8_mul ex_alias_X_heap 0 1 1 0 0 = Some 3%float ∧
     cell f8 h' 0 2 0 ≠ product_at f8 f8_mul ex_alias_X_heap 0 1 1 0 0).
Proof.
  split_and!.
  - eexists. split; [by vm_compute|]. split_and!; [|by vm_compute..|].
    + intros H. apply (f_equal (λ o, o ≫= (λ m, mget f8 m 2 0))) in H.
      vm_compute in H. by apply f8_Some_neq in H.
    + intros H. vm_compute in H. by apply f8_Some_neq in H.
  - eexists. split; [by vm_compute|]. split_and!; [by vm_compute..|].
    intros H. vm_compute in H. by apply f8_Some_neq in H.
  - eexists. split; [by vm_compute|]. split_and!; [by vm_compute..|].
    intros H. vm_compute in H. by apply f8_Some_neq in H.
Qed.

(** C8 (amended). A call of [mult_mat_xcorr] that returns has written
    only into the buffer passed as [c], in place: every other buffer of the
    heap is unchanged, so [X] and [Xc] are unchanged whenever they are not
    that buffer, and every buffer, [c] included, keeps its shape. *)
Theorem mult_mat_xcorr_frame (T : Type) (mul : T → T → T)
    (h h' : gmap nat (list (list T))) (X Xc c : nat) (n nx : Z) :
  mult_mat_xcorr T mul X Xc c n nx h = Done h' →
  (∀ p, p ≠ c → h' !! p = h !! p) ∧
  (X ≠ c → h' !! X = h !! X) ∧
  (Xc ≠ c → h' !! Xc = h !! Xc) ∧
  shape_of T <$> h' = shape_of T <$> h.
Proof.
  unfold mult_mat_xcorr, _mult_mat_xcorr. rewrite run_blocks_run_steps.
  intros Hrun. destruct (run_steps_frame _ _ _ _ _ _ _ Hrun) as [Hfr _].
  split_and!; auto. by eapply run_steps_shapes.
Qed.

Lemma mult_mat_xcorr_frame_witness :
  (∀ p, p ≠ 2%nat →
     <[2%nat := [[2%float]; [4%float]; [3%float]; [6%float]]]> ex_heap !! p =
     ex_heap !! p) ∧
  (0%nat ≠ 2%nat →
     <[2%nat := [[2%float]; [4%float]; [3%float]; [6%float]]]> ex_heap !! 0%nat =
     ex_heap !! 0%nat) ∧
  (1%nat ≠ 2%nat →
     <[2%nat := [[2%float]; [4%float]; [3%float]; [6%float]]]> ex_heap !! 1%nat =
     ex_heap !! 1%nat) ∧
  shape_of f8 <$>
    <[2%nat := [[2%float]; [4%float]; [3%float]; [6%float]]]> ex_heap =
  shape_of f8 <$> ex_heap.
Proof.
  apply (mult_mat_xcorr_frame f8 f8_mul ex_heap _ 0%nat 1%nat 2%nat 2 1).
  vm_compute. reflexivity.
Defined.

(** C8 as stated fails when the caller passes one buffer as [Xc] and as
    [c], or as [X] and as [c]: the call returns and [Xc], or [X], has
    changed. *)
Lemma mult_mat_xcorr_overwrites_aliased_input :
  (∃ h', mult_mat_xcorr f8 f8_mul 0 1 1 2 1 ex_alias_heap = Done h' ∧
     ex_alias_heap !! 1%nat = Some ex_shared ∧
     h' !! 1%nat = Some [[2%float]; [2%float]; [6%float]; [6%float]] ∧
     h' !! 1%nat ≠ ex_alias_heap !! 1%nat) ∧
  (∃ h', mult_mat_xcorr f8 f8_mul 0 1 0 2 1 ex_alias_X_heap = Done h' ∧
     ex_alias_X_heap !! 0%nat = Some ex_shared_X ∧
     h' !! 0%nat = Some [[2%float]; [2%float]; [2%float]; [2%float]] ∧
     h' !! 0%nat ≠ ex_alias_X_heap !! 0%nat).
Proof.
  split.
  - eexists. split; [by vm_compute|]. split_and!; [by vm_compute..|].
    intros H. apply (f_equal (λ o, o ≫= (λ m, mget f8 m 0 0))) in H.
    vm_compute in H. by apply f8_Some_neq in H.
  - eexists. split; [by vm_compute|]. split_and!; [by vm_compute..|].
    intros H. apply (f_equal (λ o, o ≫= (λ m, mget f8 m 1 0))) in H.
    vm_compute in H. by apply f8_Some_neq in H.
Qed.

(** C3 (amended). Each outer iteration [i] writes only into [c], and there
    only into rows [i*n .. (i+1)*n - 1].  When [c] is not the buffer of [X]
    or of [Xc], the outcome of a call does not depend on the order of the
    outer iterations, nor on how their assignments are interleaved: every
    permutation of the iterations, and every permutation of the single
    assignments, gives the outcome of the sequential run. *)
Theorem mult_mat_xcorr_order_independent (T : Type) (mul : T → T → T)
    (h : gmap nat (list (list T))) (X Xc c : nat) (n nx : Z) :
  (∀ i h', block T mul X Xc c n nx i h = Done h' →
     (∀ p, p ≠ c → h' !! p = h !! p) ∧
     (∀ p j k, ¬ (i * n ≤ j < (i + 1) * n) →
        cell T h' p j k = cell T h p j k)) ∧
  (c ≠ X → c ≠ Xc →
   (∀ sched, sched ≡ₚ xrange 0 n →
      run_blocks T mul X Xc c n nx sched h =
      _mult_mat_xcorr T mul X Xc c n nx h) ∧
   (∀ steps, steps ≡ₚ all_steps n nx →
      run_steps T mul X Xc c steps h =
      _mult_mat_xcorr T mul X Xc c n nx h)).
Proof.
  split.
  - intros i h'. rewrite block_run_steps.
    intros [Hfr Hcell]%run_steps_frame. split; [done|].
    intros p j k Hout. apply Hcell.
    intros i' r Hel. apply elem_of_block_steps in Hel. lia.
  - intros HX HXc.
    assert (∀ steps, steps ≡ₚ all_steps n nx →
      run_steps T mul X Xc c steps h = _mult_mat_xcorr T mul X Xc c n nx h)
      as Hsteps.
    { intros steps Hp. unfold _mult_mat_xcorr.
      rewrite run_blocks_run_steps. fold (all_steps n nx).
      apply run_steps_Permutation; [done..| |done].
      intros i1 r1 j1 k1 i2 r2 j2 k2 H1 H2.
      apply (all_steps_target_inj n nx); by rewrite <- Hp. }
    split; [|done]. intros sched Hp. rewrite run_blocks_run_steps.
    apply Hsteps. by apply sched_steps_Permutation.
Qed.

Lemma mult_mat_xcorr_order_independent_witness :
  run_blocks f8 f8_mul 0 1 2 2 1 [1; 0] ex_heap =
    _mult_mat_xcorr f8 f8_mul 0 1 2 2 1 ex_heap ∧
  run_steps f8 f8_mul 0 1 2
    [(0, 0, 0, 0); (1, 0, 2, 0); (0, 1, 1, 0); (1, 1, 3, 0)] ex_heap =
    _mult_mat_xcorr f8 f8_mul 0 1 2 2 1 ex_heap.
Proof.
  destruct (mult_mat_xcorr_order_independent f8 f8_mul ex_heap 0 1 2 2 1)
    as [_ Hord].
  destruct Hord as [Hblocks Hsteps]; [lia..|]. split.
  - apply Hblocks. apply (perm_swap 0 1 []).
  - apply Hsteps. apply perm_skip, (perm_swap (0, 1, 1, 0) (1, 0, 2, 0)).
Defined.

(** C3 as stated fails when the caller passes one buffer as [Xc] and as
    [c]: the iterations read rows that iteration 0 writes, and running
    iteration 1 first gives another result than the sequential run.  It
    fails in the same way when one buffer of [n*n] rows is passed as [X]
    and as [c]. *)
Lemma mult_mat_xcorr_order_matters_when_aliased :
  [1; 0] ≡ₚ xrange 0 2 ∧
  (run_blocks f8 f8_mul 0 1 1 2 1 [1; 0] ex_alias_heap =
     Done (<[1%nat := [[2%float]; [2%float]; [3%float]; [3%float]]]>
             ex_alias_heap) ∧
   _mult_mat_xcorr f8 f8_mul 0 1 1 2 1 ex_alias_heap =
     Done (<[1%nat := [[2%float]; [2%float]; [6%float]; [6%float]]]>
             ex_alias_heap) ∧
   run_blocks f8 f8_mul 0 1 1 2 1 [1; 0] ex_alias_heap ≠
     _mult_mat_xcorr f8 f8_mul 0 1 1 2 1 ex_alias_heap) ∧
  (run_blocks f8 f8_mul 0 1 0 2 1 [1; 0] ex_alias_X_heap =
     Done (<[0%nat := [[2%float]; [2%float]; [3%float]; [3%float]]]>
             ex_alias_X_heap) ∧
   _mult_mat_xcorr f8 f8_mul 0 1 0 2 1 ex_alias_X_heap =
     Done (<[0%nat := [[2%float]; [2%float]; [2%float]; [2%float]]]>
             ex_alias_X_heap) ∧
   run_blocks f8 f8_mul 0 1 0 2 1 [1; 0] ex_alias_X_heap ≠
     _mult_mat_xcorr f8 f8_mul 0 1 0 2 1 ex_alias_X_heap).
Proof.
  split_and!;
    [apply (perm_swap 0 1 [])|by vm_compute|by vm_compute|
    |by vm_compute|by vm_compute|].
  - intros H.
    apply (f_equal (λ o, match o with
                         | Done h' => cell f8 h' 1 2 0
                         | _ => None
                         end)) in H.
    vm_compute in H. by apply f8_Some_neq in H.
  - intros H.
    apply (f_equal (λ o, match o with
                         | Done h' => cell f8 h' 0 2 0
                         | _ => None
                         end)) in H.
    vm_compute in H. by apply f8_Some_neq in H.
Qed.

(** C9 (amended). Two calls with the same [X], [n] and [nx], on buffers
    of the contract's shapes, whose [Xc] agree on rows [0 .. n-1] and in
    each of which [c] shares no memory with [X] or [Xc], both return and
    leave the same [c], whatever rows [n .. n*n-1] of [Xc] hold, whatever
    [c] held before, wherever the buffers of the two calls lie, and in
    whatever order each call runs its outer iterations or interleaves their
    assignments. *)
Theorem mult_mat_xcorr_reads_first_rows (T : Type) (mul : T → T → T)
    (h1 h2 : gmap nat (list (list T))) (X1 Xc1 c1 X2 Xc2 c2 : nat) (n nx : Z)
    (mX mXc1 mXc2 mc1 mc2 : list (list T)) :
  h1 !! X1 = Some mX → h2 !! X2 = Some mX →
  h1 !! Xc1 = Some mXc1 → h2 !! Xc2 = Some mXc2 →
  h1 !! c1 = Some mc1 → h2 !! c2 = Some mc2 →
  has_shape T mX n nx →
  has_shape T mXc1 (n * n) nx → has_shape T mXc2 (n * n) nx →
  has_shape T mc1 (n * n) nx → has_shape T mc2 (n * n) nx →
  take (Z.to_nat n) mXc1 = take (Z.to_nat n) mXc2 →
  c1 ≠ X1 → c1 ≠ Xc1 → c2 ≠ X2 → c2 ≠ Xc2 →
  ∃ mc',
    (∃ h1' h2',
       mult_mat_xcorr T mul X1 Xc1 c1 n nx h1 = Done h1' ∧
       mult_mat_xcorr T mul X2 Xc2 c2 n nx h2 = Done h2' ∧
       h1' !! c1 = Some mc' ∧ h2' !! c2 = Some mc') ∧
    (∀ sched1 sched2, sched1 ≡ₚ xrange 0 n → sched2 ≡ₚ xrange 0 n →
       ∃ h1' h2',
         run_blocks T mul X1 Xc1 c1 n nx sched1 h1 = Done h1' ∧
         run_blocks T mul X2 Xc2 c2 n nx sched2 h2 = Done h2' ∧
         h1' !! c1 = Some mc' ∧ h2' !! c2 = Some mc') ∧
    (∀ steps1 steps2, steps1 ≡ₚ all_steps n nx → steps2 ≡ₚ all_steps n nx →
       ∃ h1' h2',
         run_steps T mul X1 Xc1 c1 steps1 h1 = Done h1' ∧
         run_steps T mul X2 Xc2 c2 steps2 h2 = Done h2' ∧
         h1' !! c1 = Some mc' ∧ h2' !! c2 = Some mc').
Proof.
  intros HX1 HX2 HXc1 HXc2 Hc1 Hc2 SX SXc1 SXc2 Sc1 Sc2 Htake
    Hc1X Hc1Xc Hc2X Hc2Xc.
  destruct (run_steps_contract mul h1 X1 Xc1 c1 n nx mX mXc1 mc1)
    as (h1' & m1 & Hrun1 & Hm1 & Sm1 & Hval1); [done..|].
  destruct (run_steps_contract mul h2 X2 Xc2 c2 n nx mX mXc2 mc2)
    as (h2' & m2 & Hrun2 & Hm2 & Sm2 & Hval2); [done..|].
  assert (m1 = m2) as <- by by eapply (products_unique mul n nx mX mXc1 mXc2).
  assert (∀ steps1 steps2,
    steps1 ≡ₚ all_steps n nx → steps2 ≡ₚ all_steps n nx →
    ∃ h1' h2',
      run_steps T mul X1 Xc1 c1 steps1 h1 = Done h1' ∧
      run_steps T mul X2 Xc2 c2 steps2 h2 = Done h2' ∧
      h1' !! c1 = Some m1 ∧ h2' !! c2 = Some m1) as Hsteps.
  { intros steps1 steps2 Hp1 Hp2. exists h1', h2'.
    split_and!; [by apply Hrun1|by apply Hrun2|done..]. }
  exists m1. split_and!; [| |done].
  - unfold mult_mat_xcorr, _mult_mat_xcorr. rewrite !run_blocks_run_steps.
    by apply Hsteps.
  - intros sched1 sched2 Hp1 Hp2. rewrite !run_blocks_run_steps.
    apply Hsteps; by apply sched_steps_Permutation.
Qed.

Lemma mult_mat_xcorr_reads_first_rows_witness :
  ∃ mc',
    (∃ h1' h2',
       mult_mat_xcorr f8 f8_mul 0 1 2 2 1 ex_heap = Done h1' ∧
       mult_mat_xcorr f8 f8_mul 5 4 3 2 1 ex_heap2 = Done h2' ∧
       h1' !! 2%nat = Some mc' ∧ h2' !! 3%nat = Some mc') ∧
    (∀ sched1 sched2, sched1 ≡ₚ xrange 0 2 → sched2 ≡ₚ xrange 0 2 →
       ∃ h1' h2',
         run_blocks f8 f8_mul 0 1 2 2 1 sched1 ex_heap = Done h1' ∧
         run_blocks f8 f8_mul 5 4 3 2 1 sched2 ex_heap2 = Done h2' ∧
         h1' !! 2%nat = Some mc' ∧ h2' !! 3%nat = Some mc') ∧
    (∀ steps1 steps2, steps1 ≡ₚ all_steps 2 1 → steps2 ≡ₚ all_steps 2 1 →
       ∃ h1' h2',
         run_steps f8 f8_mul 0 1 2 steps1 ex_heap = Done h1' ∧
         run_steps f8 f8_mul 5 4 3 steps2 ex_heap2 = Done h2' ∧
         h1' !! 2%nat = Some mc' ∧ h2' !! 3%nat = Some mc').
Proof.
  apply (mult_mat_xcorr_reads_first_rows f8 f8_mul ex_heap ex_heap2
           0%nat 1%nat 2%nat 5%nat 4%nat 3%nat 2 1
           ex_X ex_Xc ex_Xc2 ex_c ex_c2);
    try reflexivity; try lia;
    shape_ok.
Defined.

(** C9 as stated fails when [c] shares its buffer with [Xc].  Two calls
    with the same [X = [[2],[3]]] and the same [Xc = [[1],[1],[0],[0]]],
    one with [c] a buffer of its own and one with [c] the buffer of [Xc],
    leave different [c] (row 2 is 3 in the one, 6 in the other).  And the
    second call alone, repeated with its outer iterations in the order
    1, 0, leaves a third [c]: the order is chosen anew in every call. *)
Lemma mult_mat_xcorr_first_rows_not_enough_when_aliased :
  ex_sep_heap !! 0%nat = Some ex_X ∧ ex_alias_heap !! 0%nat = Some ex_X ∧
  ex_sep_heap !! 1%nat = Some ex_shared ∧
  ex_alias_heap !! 1%nat = Some ex_shared ∧
  (∃ h1' h2',
     mult_mat_xcorr f8 f8_mul 0 1 2 2 1 ex_sep_heap = Done h1' ∧
     mult_mat_xcorr f8 f8_mul 0 1 1 2 1 ex_alias_heap = Done h2' ∧
     cell f8 h1' 2 2 0 = Some 3%float ∧ cell f8 h2' 1 2 0 = Some 6%float ∧
     cell f8 h1' 2 2 0 ≠ cell f8 h2' 1 2 0) ∧
  [1; 0] ≡ₚ xrange 0 2 ∧
  (∃ h2' h3',
     run_blocks f8 f8_mul 0 1 1 2 1 (xrange 0 2) ex_alias_heap = Done h2' ∧
     run_blocks f8 f8_mul 0 1 1 2 1 [1; 0] ex_alias_heap = Done h3' ∧
     cell f8 h2' 1 2 0 = Some 6%float ∧ cell f8 h3' 1 2 0 = Some 3%float ∧
     cell f8 h2' 1 2 0 ≠ cell f8 h3' 1 2 0).
Proof.
  split_and!; [reflexivity..| |apply (perm_swap 0 1 [])|].
  - eexists _, _. split; [by vm_compute|]. split; [by vm_compute|].
    split_and!; [by vm_compute..|].
    intros H. vm_compute in H. by apply f8_Some_neq in H.
  - eexists _, _. split; [by vm_compute|]. split; [by vm_compute|].
    split_and!; [by vm_compute..|].
    intros H. vm_compute in H. by apply f8_Some_neq in H.
Qed.

(** ** The binning aggregator: arithmetic *)

Import Bin.

Lemma wrap_long_small (z : Z) : long_min ≤ z ≤ long_max → wrap_long z = z.
Proof.
  unfold long_min, long_max, wrap_long. intros Hz.
  rewrite Z.mod_small; lia.
Qed.

Lemma wrap_long_add_l (x y : Z) : wrap_long (wrap_long x + y) = wrap_long (x + y).
Proof.
  unfold wrap_long. f_equal.
  replace ((x + 2 ^ 63) mod 2 ^ 64 - 2 ^ 63 + y + 2 ^ 63)
    with ((x + 2 ^ 63) mod 2 ^ 64 + y) by lia.
  rewrite Z.add_mod_idemp_l by lia. f_equal. lia.
Qed.

Lemma wrap_long_add (x y : Z) :
  wrap_long (x + y) = long_add (wrap_long x) (wrap_long y).
Proof.
  unfold long_add.
  by rewrite wrap_long_add_l, (Z.add_comm x (wrap_long y)), wrap_long_add_l,
    (Z.add_comm y x).
Qed.

Lemma Zsum_cons (x : Z) (l : list Z) : Zsum (x :: l) = x + Zsum l.
Proof. done. Qed.

Lemma Zsum_fmap_add {A : Type} (f g : A → Z) (l : list A) :
  Zsum ((λ x, f x + g x) <$> l) = Zsum (f <$> l) + Zsum (g <$> l).
Proof.
  induction l as [|x l IH]; [done|].
  rewrite !fmap_cons, !Zsum_cons, IH. lia.
Qed.

Lemma Zsum_fmap_ext {A : Type} (f g : A → Z) (l : list A) :
  (∀ x, x ∈ l → f x = g x) → Zsum (f <$> l) = Zsum (g <$> l).
Proof.
  induction l as [|x l IH]; intros Hfg; [done|].
  rewrite !fmap_cons, !Zsum_cons, (Hfg x) by left.
  rewrite IH; [done|]. intros y Hy. apply Hfg. by right.
Qed.

Lemma Zsum_fmap_bounds {A : Type} (f : A → Z) (l : list A) :
  (∀ x, x ∈ l → 0 ≤ f x ≤ 1) → 0 ≤ Zsum (f <$> l) ≤ Z.of_nat (length l).
Proof.
  induction l as [|x l IH]; intros Hf; [done|].
  rewrite fmap_cons, Zsum_cons, length_cons.
  pose proof (Hf x (list_elem_of_here _ _)).
  assert (0 ≤ Zsum (f <$> l) ≤ Z.of_nat (length l)).
  { apply IH. intros y Hy. apply Hf. by right. }
  lia.
Qed.

(** Row-major positions of different elements differ. *)
Lemma row_major_inj (N i k i' k' : Z) :
  0 ≤ k < N → 0 ≤ k' < N → i * N + k = i' * N + k' → i = i' ∧ k = k'.
Proof. intros Hk Hk' Heq. assert (i = i') by nia. split; [done|nia]. Qed.

Lemma row_major_bounds (B N i k : Z) :
  0 ≤ i < B → 0 ≤ k < N → 0 ≤ i * N + k < B * N.
Proof. nia. Qed.

(** A loop over distinct indices that keeps an invariant of the indices
    already handled. *)
Lemma for_each_inv {I S : Type} (Inv : list I → S → Prop)
    (body : I → S → outcome S) (xs : list I) (s : S) :
  NoDup xs → Inv [] s →
  (∀ done x s, x ∈ xs → x ∉ done → Inv done s →
     ∃ s', body x s = Done s' ∧ Inv (done ++ [x]) s') →
  ∃ s', for_each xs body s = Done s' ∧ Inv xs s'.
Proof.
  intros Hnd Hinit Hstep.
  assert (∀ ys pre s, pre ++ ys = xs → Inv pre s →
    ∃ s', for_each ys body s = Done s' ∧ Inv xs s') as Hgen.
  { induction ys as [|y ys IH]; intros pre s0 Hsplit Hpre.
    - exists s0. rewrite app_nil_r in Hsplit. by subst.
    - destruct (Hstep pre y s0) as (s1 & H1 & Hinv); [| |done|].
      + rewrite <- Hsplit. apply elem_of_app. right. left.
      + rewrite <- Hsplit in Hnd. apply NoDup_app in Hnd as (_ & Hdisj & _).
        intros Hin. apply (Hdisj y Hin). left.
      + destruct (IH (pre ++ [y]) s1) as (s' & Hrun & Hfin); [|done|].
        * by rewrite <- app_assoc.
        * exists s'. simpl. rewrite H1. done. }
  by apply (Hgen xs [] s).
Qed.

(** ** The binning aggregator: one call *)

Section bin_run.

Context (h : gmap nat ndarray) (a bins out : nat) (A E : ndarray) (T N B : Z).
Hypothesis Ha : h !! a = Some A.
Hypothesis Hb : h !! bins = Some E.
Hypothesis Hout : h !! out = None.
Hypothesis SA : is_samples A T N.
Hypothesis SE : is_edges E (B + 1).
Hypothesis HB : 0 ≤ B.
Hypothesis Hrange : Forall (λ e, 0 ≤ e ≤ T) (nd_data E).

(** The heap while the kernel runs: [out] holds the data [d]. *)
#[local] Abbreviation H d := (<[out := NdArray Long [B; N] d]> h).

Lemma out_fresh : out ≠ a ∧ out ≠ bins.
Proof. split; intros ->; congruence. Qed.

Lemma item2_samples j k :
  0 ≤ j < T → 0 ≤ k < N →
  ∃ x, item2 A j k = Some x ∧ nd_data A !! Z.to_nat (j * N + k) = Some x.
Proof.
  intros Hj Hk. destruct SA as (_ & Hsh & _ & _ & Hlen & _).
  unfold item2. rewrite Hsh, decide_True by done.
  destruct (lookup_lt_is_Some_2 (nd_data A) (Z.to_nat (j * N + k))) as [x Hx];
    [pose proof (row_major_bounds T N j k); lia|].
  eauto.
Qed.

Lemma load_samples d j k :
  0 ≤ j < T → 0 ≤ k < N →
  load a (j * N + k) (H d) = Done (default 0 (item2 A j k)).
Proof.
  intros Hj Hk. destruct (item2_samples j k Hj Hk) as (x & -> & Hx).
  unfold load. rewrite lookup_insert_ne, Ha by apply out_fresh.
  rewrite decide_True by nia. by rewrite Hx.
Qed.

Lemma load_edges d i :
  0 ≤ i ≤ B →
  ∃ e, item1 E i = Some e ∧ 0 ≤ e ≤ T ∧ load bins i (H d) = Done e.
Proof.
  intros Hi. destruct SE as (_ & _ & Hlen).
  destruct (lookup_lt_is_Some_2 (nd_data E) (Z.to_nat i)) as [e He]; [lia|].
  exists e. unfold item1, load.
  rewrite lookup_insert_ne, Hb by apply out_fresh.
  rewrite !decide_True, He by lia. split; [done|]. split; [|done].
  rewrite Forall_lookup in Hrange. by apply (Hrange _ _ He).
Qed.

Lemma accumulate_out d i j k y :
  0 ≤ i < B → 0 ≤ j < T → 0 ≤ k < N → Z.of_nat (length d) = B * N →
  d !! Z.to_nat (i * N + k) = Some (wrap_long y) →
  accumulate a out N i j k (H d) =
    Done (H (<[Z.to_nat (i * N + k) :=
                 wrap_long (y + default 0 (item2 A j k))]> d)).
Proof.
  intros Hi Hj Hk Hlen Hy. unfold accumulate.
  rewrite load_samples by done. simpl.
  pose proof (row_major_bounds B N i k Hi Hk).
  unfold load, store. rewrite lookup_insert_eq. simpl.
  rewrite decide_True, Hy by lia. simpl. rewrite decide_True by lia.
  unfold long_add. by rewrite insert_insert_eq, wrap_long_add_l.
Qed.

(** The loop over the rows of one bin adds their sum to one element. *)
Lemma rows_loop js d i k y :
  0 ≤ i < B → 0 ≤ k < N → Z.of_nat (length d) = B * N →
  (∀ j, j ∈ js → 0 ≤ j < T) →
  d !! Z.to_nat (i * N + k) = Some (wrap_long y) →
  for_each js (λ j, accumulate a out N i j k) (H d) =
    Done (H (<[Z.to_nat (i * N + k) :=
                 wrap_long (y + Zsum ((λ j, default 0 (item2 A j k)) <$> js))]> d)).
Proof.
  intros Hi Hk. revert d y.
  induction js as [|j js IH]; intros d y Hlen Hjs Hy.
  { simpl. unfold Zsum. simpl. rewrite Z.add_0_r, list_insert_id by done. done. }
  cbn [for_each]. rewrite (accumulate_out d i j k y) by (done || apply Hjs; left).
  rewrite outcome_Done_bind, (IH _ (y + default 0 (item2 A j k))).
  - rewrite list_insert_insert_eq, fmap_cons, Zsum_cons.
    by rewrite Z.add_assoc.
  - by rewrite length_insert.
  - intros j' Hj'. apply Hjs. by right.
  - apply list_lookup_insert_eq.
    pose proof (row_major_bounds B N i k Hi Hk). lia.
Qed.

(** One bin of one channel. *)
Lemma bin_loop_out Q d i k :
  filled A E B N Q d → ¬ Q i k → 0 ≤ i < B → 0 ≤ k < N →
  ∃ d', bin_loop a bins out N k i (H d) = Done (H d') ∧
        filled A E B N (λ i' k', Q i' k' ∨ (i' = i ∧ k' = k)) d'.
Proof.
  intros [Hlen Hd] HQ Hi Hk.
  destruct (load_edges d i) as (lo & Hlo & Rlo & Llo); [lia|].
  destruct (load_edges d (i + 1)) as (hi & Hhi & Rhi & Lhi); [lia|].
  pose proof (row_major_bounds B N i k Hi Hk) as Hidx.
  eexists. unfold bin_loop. rewrite Llo. simpl. rewrite Lhi. simpl.
  rewrite (rows_loop _ d i k 0); [split; [done|]|done..| |].
  - split; [by rewrite length_insert|]. intros i' k' Hi' Hk'.
    destruct (Hd i' k' Hi' Hk') as (lo' & hi' & Hlo' & Hhi' & Hcase).
    exists lo', hi'. split_and!; [done..|].
    destruct (decide (i' = i ∧ k' = k)) as [[-> ->]|Hne].
    + left. split; [by right|]. simplify_eq.
      rewrite list_lookup_insert_eq by lia. done.
    + rewrite list_lookup_insert_ne.
      * destruct Hcase as [[? ?]|[? ?]]; [left|right]; (split; [tauto|done]).
      * intros Heq. apply Hne.
        pose proof (row_major_bounds B N i' k' Hi' Hk').
        apply (row_major_inj N); [done..|lia].
  - intros j Hj%elem_of_xrange. lia.
  - destruct (Hd i k Hi Hk) as (? & ? & _ & _ & [[? _]|[_ ->]]); done.
Qed.

(** All bins of one channel. *)
Lemma bins_loop Q d k :
  filled A E B N Q d → (∀ i, ¬ Q i k) → 0 ≤ k < N →
  ∃ d', for_each (xrange 0 B) (λ i, bin_loop a bins out N k i) (H d) =
          Done (H d') ∧
        filled A E B N (λ i' k', Q i' k' ∨ k' = k) d'.
Proof.
  intros Hd HQ Hk.
  destruct (for_each_inv
    (λ done s, ∃ d', s = H d' ∧
       filled A E B N (λ i' k', Q i' k' ∨ (i' ∈ done ∧ k' = k)) d')
    (λ i, bin_loop a bins out N k i) (xrange 0 B) (H d))
    as (s' & Hrun & d' & -> & Hfill).
  - apply NoDup_xrange.
  - exists d. split; [done|]. destruct Hd as [Hlen Hd]. split; [done|].
    intros i' k' Hi' Hk'. destruct (Hd i' k' Hi' Hk') as (lo & hi & ? & ? & Hc).
    exists lo, hi. split_and!; [done..|].
    pose proof (not_elem_of_nil i').
    destruct Hc as [[? ?]|[? ?]]; [left|right]; split; try done; tauto.
  - intros done i s Hi%elem_of_xrange Hnew (d0 & -> & Hfill).
    destruct (bin_loop_out _ d0 i k Hfill) as (d1 & Hrun & Hfill1); [|lia|done|].
    { intros [?|[? _]]; [by apply (HQ i)|done]. }
    exists (H d1). split; [done|]. exists d1. split; [done|].
    destruct Hfill1 as [Hlen Hd1]. split; [done|].
    intros i' k' Hi' Hk'. destruct (Hd1 i' k' Hi' Hk') as (lo & hi & ? & ? & Hc).
    exists lo, hi. split_and!; [done..|].
    rewrite elem_of_app, list_elem_of_singleton.
    destruct Hc as [[Hin ?]|[Hnin ?]]; [left|right]; split; try done; tauto.
  - exists d'. split; [done|]. destruct Hfill as [Hlen Hd']. split; [done|].
    intros i' k' Hi' Hk'. destruct (Hd' i' k' Hi' Hk') as (lo & hi & ? & ? & Hc).
    exists lo, hi. split_and!; [done..|].
    assert (i' ∈ xrange 0 B) by (apply elem_of_xrange; lia).
    destruct Hc as [[Hin ?]|[Hnin ?]]; [left|right]; split; try done; tauto.
Qed.

(** All channels. *)
Lemma channels_loop d :
  filled A E B N (λ _ _, False) d →
  ∃ d', for_each (xrange 0 N)
          (λ k, for_each (xrange 0 B) (λ i, bin_loop a bins out N k i)) (H d) =
          Done (H d') ∧
        filled A E B N (λ _ _, True) d'.
Proof.
  intros Hd.
  destruct (for_each_inv
    (λ done s, ∃ d', s = H d' ∧ filled A E B N (λ _ k', k' ∈ done) d')
    (λ k, for_each (xrange 0 B) (λ i, bin_loop a bins out N k i))
    (xrange 0 N) (H d))
    as (s' & Hrun & d' & -> & Hfill).
  - apply NoDup_xrange.
  - exists d. split; [done|]. destruct Hd as [Hlen Hd]. split; [done|].
    intros i' k' Hi' Hk'. destruct (Hd i' k' Hi' Hk') as (lo & hi & ? & ? & Hc).
    exists lo, hi. split_and!; [done..|].
    pose proof (not_elem_of_nil k').
    destruct Hc as [[[] ?]|[? ?]]. right. split; [done|done].
  - intros done k s Hk%elem_of_xrange Hnew (d0 & -> & Hfill).
    destruct (bins_loop _ d0 k Hfill) as (d1 & Hrun & Hfill1); [done|lia|].
    exists (H d1). split; [done|]. exists d1. split; [done|].
    destruct Hfill1 as [Hlen Hd1]. split; [done|].
    intros i' k' Hi' Hk'. destruct (Hd1 i' k' Hi' Hk') as (lo & hi & ? & ? & Hc).
    exists lo, hi. split_and!; [done..|].
    rewrite elem_of_app, list_elem_of_singleton.
    destruct Hc as [[Hin ?]|[Hnin ?]]; [left|right]; split; try done; tauto.
  - exists d'. split; [done|]. destruct Hfill as [Hlen Hd']. split; [done|].
    intros i' k' Hi' Hk'. destruct (Hd' i' k' Hi' Hk') as (lo & hi & ? & ? & Hc).
    exists lo, hi. split_and!; [done..|].
    destruct Hc as [[Hin ?]|[Hnin ?]]; [by left|].
    exfalso. apply Hnin. apply elem_of_xrange. lia.
Qed.

End bin_run.

Section bin_call.

Implicit Types (h : gmap nat ndarray) (a bins out : nat) (A E R : ndarray).
Implicit Types (T N B i k : Z).

Lemma is_edges_item1 E len i :
  is_edges E len → 0 ≤ i < len → is_Some (item1 E i).
Proof.
  intros (_ & _ & Hlen) Hi. unfold item1. rewrite decide_True by lia.
  apply lookup_lt_is_Some_2. lia.
Qed.

Lemma filled_zeros A E B N :
  is_edges E (B + 1) → 0 ≤ B → 0 ≤ N →
  filled A E B N (λ _ _, False) (replicate (Z.to_nat (B * N)) 0).
Proof.
  intros SE HB HN. split; [rewrite length_replicate; nia|].
  intros i k Hi Hk.
  destruct (is_edges_item1 E (B + 1) i SE) as [lo Hlo]; [lia|].
  destruct (is_edges_item1 E (B + 1) (i + 1) SE) as [hi Hhi]; [lia|].
  exists lo, hi. split_and!; [done..|]. right. split; [tauto|].
  apply lookup_replicate_2. pose proof (row_major_bounds B N i k Hi Hk). lia.
Qed.

(** [_bin_data] on a zeroed output buffer of its own. *)
Lemma _bin_data_filled h a bins out A E T N B :
  h !! a = Some A → h !! bins = Some E → h !! out = None →
  is_samples A T N → is_edges E (B + 1) → 0 ≤ B →
  Forall (λ e, 0 ≤ e ≤ T) (nd_data E) →
  ∃ d, _bin_data a bins out
         (<[out := NdArray Long [B; N] (replicate (Z.to_nat (B * N)) 0)]> h) =
         Done (<[out := NdArray Long [B; N] d]> h) ∧
       filled A E B N (λ _ _, True) d.
Proof.
  intros Ha Hb Hout SA SE HB Hrange.
  destruct (out_fresh h a bins out A E Ha Hb Hout) as [Hoa Hob].
  destruct (channels_loop h a bins out A E T N B Ha Hb Hout SA SE HB Hrange
              (replicate (Z.to_nat (B * N)) 0)) as (d & Hrun & Hfill).
  { apply filled_zeros; [done..|]. destruct SA as (_ & _ & _ & ? & _). lia. }
  exists d. split; [|done].
  unfold _bin_data, shape_at.
  rewrite (lookup_insert_ne _ out bins), Hb by done. simpl.
  destruct SE as (HdE & HsE & HlE). rewrite HsE. simpl.
  rewrite ?outcome_Done_bind, lookup_insert_eq. simpl.
  rewrite ?outcome_Done_bind. by replace (B + 1 - 1) with B by lia.
Qed.

(** [bin_data] on arguments that meet the contract: it returns a new
    array holding, for every bin and channel, the wrapped sum of the bin. *)
Lemma bin_data_filled h a bins A E T N B :
  h !! a = Some A → h !! bins = Some E →
  is_samples A T N → is_edges E (B + 1) → 0 ≤ B →
  Forall (λ e, 0 ≤ e ≤ T) (nd_data E) →
  ∃ out d, bin_data a bins h = Done (out, <[out := NdArray Long [B; N] d]> h) ∧
           h !! out = None ∧ filled A E B N (λ _ _, True) d.
Proof.
  intros Ha Hb SA SE HB Hrange.
  assert (h !! fresh (dom h) = None) as Hout
    by (apply not_elem_of_dom, is_fresh).
  destruct (_bin_data_filled h a bins (fresh (dom h)) A E T N B)
    as (d & Hrun & Hfill); [done..|].
  exists (fresh (dom h)), d. split; [|done].
  unfold bin_data, not_none, acquire, shape_at. rewrite Ha, Hb.
  rewrite !outcome_Done_bind.
  destruct SA as (HdA & HsA & HT & HN & _), SE as (HdE & HsE & _).
  rewrite !decide_True by (by rewrite ?HdA, ?HsA, ?HdE, ?HsE).
  simpl. rewrite HsE, HsA. simpl. unfold np_zeros.
  rewrite decide_True by (repeat constructor; lia). simpl.
  replace (B + 1 - 1) with B by lia.
  replace (B * (N * 1)) with (B * N) by lia.
  unfold alloc. by rewrite Hrun.
Qed.

Lemma filled_item2 A E B N d i k :
  filled A E B N (λ _ _, True) d → 0 ≤ i < B → 0 ≤ k < N →
  ∃ lo hi, item1 E i = Some lo ∧ item1 E (i + 1) = Some hi ∧
    item2 (NdArray Long [B; N] d) i k = Some (wrap_long (column_sum A k lo hi)).
Proof.
  intros [Hlen Hd] Hi Hk. destruct (Hd i k Hi Hk) as (lo & hi & ? & ? & Hc).
  exists lo, hi. split_and!; [done..|]. unfold item2. simpl.
  rewrite decide_True by done. destruct Hc as [[_ ?]|[? _]]; [done|tauto].
Qed.

Lemma item1_elem_of E i e : item1 E i = Some e → e ∈ nd_data E.
Proof.
  unfold item1. case_decide; [|done]. intros He.
  apply list_elem_of_lookup. eauto.
Qed.

Lemma length_xrange lo hi : Z.of_nat (length (xrange lo hi)) = Z.max 0 (hi - lo).
Proof. unfold xrange. rewrite length_seqZ. lia. Qed.

Lemma item2_elem_of A j k x : item2 A j k = Some x → x ∈ nd_data A.
Proof.
  unfold item2. destruct (nd_shape A) as [|? [|? [|]]]; try done.
  case_decide; [|done]. intros Hx. apply list_elem_of_lookup. eauto.
Qed.

(** Sums of 0/1 samples count rows, so they fit a [long]. *)
Lemma column_sum_bits A k lo hi :
  Forall (λ v, v = 0 ∨ v = 1) (nd_data A) →
  0 ≤ column_sum A k lo hi ≤ Z.max 0 (hi - lo).
Proof.
  intros Hbits. unfold column_sum. rewrite <- length_xrange.
  apply Zsum_fmap_bounds. intros j _.
  destruct (item2 A j k) as [x|] eqn:Hx; simpl; [|lia].
  rewrite Forall_forall in Hbits.
  destruct (Hbits x (item2_elem_of _ _ _ _ Hx)); lia.
Qed.

Lemma column_sum_empty A k lo hi : hi ≤ lo → column_sum A k lo hi = 0.
Proof. intros Hle. unfold column_sum. by rewrite xrange_nil. Qed.

End bin_call.

(** ** The binning aggregator: what holds for every heap *)

Lemma for_each_preserves {I S : Type} (P : S → Prop)
    (body : I → S → outcome S) (xs : list I) (s s' : S) :
  (∀ x s s', body x s = Done s' → P s → P s') →
  for_each xs body s = Done s' → P s → P s'.
Proof.
  intros Hb. revert s. induction xs as [|x xs IH]; intros s; simpl.
  { by intros [= ->]. }
  destruct (body x s) as [s1| |] eqn:H1; simpl; [|done..].
  intros Hrun Hs. apply (IH s1); [done|]. by eapply Hb.
Qed.

Section bin_any_heap.

Implicit Types (h : gmap nat ndarray) (a bins out p : nat) (A E R : ndarray).

Lemma load_not_Raised p i h e : load p i h ≠ Raised e.
Proof.
  unfold load. destruct (h !! p); [|done]. case_decide; [|done].
  by destruct (nd_data _ !! _).
Qed.

Lemma store_not_Raised p i z h e : store p i z h ≠ Raised e.
Proof. unfold store. destruct (h !! p); [|done]. by case_decide. Qed.

Lemma shape_at_not_Raised p d h e : shape_at p d h ≠ Raised e.
Proof. unfold shape_at. by destruct (h !! p ≫= _). Qed.

Lemma accumulate_not_Raised a out n i j k h e :
  accumulate a out n i j k h ≠ Raised e.
Proof.
  unfold accumulate.
  destruct (load a (j * n + k) h) as [x| |] eqn:H1; simpl;
    [|by apply load_not_Raised in H1|done].
  destruct (load out (i * n + k) h) as [y| |] eqn:H2; simpl;
    [|by apply load_not_Raised in H2|done].
  apply store_not_Raised.
Qed.

Lemma bin_loop_not_Raised a bins out n k i h e :
  bin_loop a bins out n k i h ≠ Raised e.
Proof.
  unfold bin_loop.
  destruct (load bins i h) as [lo| |] eqn:H1; simpl;
    [|by apply load_not_Raised in H1|done].
  destruct (load bins (i + 1) h) as [hi| |] eqn:H2; simpl;
    [|by apply load_not_Raised in H2|done].
  intros (j & s & _ & Hr)%for_each_Raised. by apply accumulate_not_Raised in Hr.
Qed.

(** The kernel has no statement that raises. *)
Lemma _bin_data_not_Raised a bins out h e : _bin_data a bins out h ≠ Raised e.
Proof.
  unfold _bin_data.
  destruct (shape_at bins 0 h) as [nbins| |] eqn:H1; simpl;
    [|by apply shape_at_not_Raised in H1|done].
  destruct (shape_at out 1 h) as [n| |] eqn:H2; simpl;
    [|by apply shape_at_not_Raised in H2|done].
  intros (k & s & _ & (i & s' & _ & Hr)%for_each_Raised)%for_each_Raised.
  by apply bin_loop_not_Raised in Hr.
Qed.

(** The kernel changes the data of [out] only: every array keeps its
    element type and shape. *)
Lemma store_shapes p i z h h' q :
  store p i z h = Done h' →
  nd_shape <$> h' !! q = nd_shape <$> h !! q.
Proof.
  unfold store. destruct (h !! p) as [A|] eqn:Hp; [|done].
  case_decide; [|done]. intros [= <-].
  destruct (decide (p = q)) as [->|Hne].
  - by rewrite lookup_insert_eq, Hp.
  - by rewrite lookup_insert_ne.
Qed.

Lemma _bin_data_shapes a bins out h h' q :
  _bin_data a bins out h = Done h' →
  nd_shape <$> h' !! q = nd_shape <$> h !! q.
Proof.
  unfold _bin_data.
  destruct (shape_at bins 0 h) as [nbins| |]; simpl; [|done..].
  destruct (shape_at out 1 h) as [n| |]; simpl; [|done..].
  intros Hrun.
  set (P := λ s : gmap nat ndarray, nd_shape <$> s !! q = nd_shape <$> h !! q).
  apply (for_each_preserves P) in Hrun; [done| |done].
  intros k s s'. apply (for_each_preserves P).
  intros i s1 s1'. unfold bin_loop.
  destruct (load bins i s1) as [lo| |]; simpl; [|done..].
  destruct (load bins (i + 1) s1) as [hi| |]; simpl; [|done..].
  apply (for_each_preserves P).
  intros j s2 s2'. unfold accumulate.
  destruct (load a (j * n + k) s2) as [x| |]; simpl; [|done..].
  destruct (load out (i * n + k) s2) as [y| |]; simpl; [|done..].
  intros Hst Hs. unfold P. by rewrite (store_shapes _ _ _ _ _ q Hst).
Qed.

(** What a returning call of [bin_data] went through. *)
Lemma bin_data_Done a bins h out h' :
  bin_data a bins h = Done (out, h') →
  ∃ A E T N len,
    h !! a = Some A ∧ h !! bins = Some E ∧
    nd_dtype A = UInt8 ∧ nd_shape A = [T; N] ∧
    nd_dtype E = Long ∧ nd_shape E = [len] ∧
    0 ≤ len - 1 ∧ 0 ≤ N ∧ h !! out = None ∧
    _bin_data a bins out
      (<[out := NdArray Long [len - 1; N]
                  (replicate (Z.to_nat ((len - 1) * (N * 1))) 0)]> h) = Done h'.
Proof.
  unfold bin_data, not_none, acquire, shape_at.
  destruct (h !! a) as [A|] eqn:Ha; [|done].
  destruct (h !! bins) as [E|] eqn:Hb; [|done].
  rewrite !outcome_Done_bind.
  destruct (decide (nd_dtype A = UInt8 ∧ _)) as [HA|]; [|done]. simpl.
  destruct (decide (nd_dtype E = Long ∧ _)) as [HE|]; [|done]. simpl.
  destruct HA as [HdA HlA], HE as [HdE HlE].
  destruct (nd_shape A) as [|T [|N [|]]] eqn:HsA; try done.
  destruct (nd_shape E) as [|len [|]] eqn:HsE; try done. simpl.
  unfold np_zeros. case_decide as Hpos; [|done]. simpl.
  apply Forall_cons in Hpos as [Hlen [HN _]%Forall_cons].
  unfold alloc.
  destruct (_bin_data a bins (fresh (dom h)) _) as [h2| |] eqn:Hrun;
    simpl; [|done..].
  intros [= <- <-]. exists A, E, T, N, len. split_and!; try done.
  apply not_elem_of_dom, is_fresh.
Qed.

End bin_any_heap.

Lemma for_each_skip {I S : Type} (body : I → S → outcome S) (xs : list I)
    (s : S) :
  (∀ x s', body x s' = Done s') → for_each xs body s = Done s.
Proof.
  intros Hb. induction xs as [|x xs IH]; simpl; [done|]. by rewrite Hb.
Qed.

(** [bin_data] on well-typed arguments with at least one edge: the new
    array is allocated and handed to the kernel. *)
Lemma bin_data_unfold (h : gmap nat ndarray) (a bins : nat) (A E : ndarray)
    (T N len : Z) :
  h !! a = Some A → h !! bins = Some E →
  is_samples A T N → is_edges E len → 1 ≤ len →
  bin_data a bins h =
    _bin_data a bins (fresh (dom h))
      (<[fresh (dom h) := NdArray Long [len - 1; N]
                            (replicate (Z.to_nat ((len - 1) * N)) 0)]> h) ≫=
    (λ h2, Done (fresh (dom h), h2)).
Proof.
  intros Ha Hb (HdA & HsA & HT & HN & _) (HdE & HsE & _) Hlen.
  unfold bin_data, not_none, acquire, shape_at. rewrite Ha, Hb.
  rewrite !outcome_Done_bind.
  rewrite !decide_True by (by rewrite ?HdA, ?HsA, ?HdE, ?HsE).
  simpl. rewrite HsE, HsA. simpl. unfold np_zeros.
  rewrite decide_True by (repeat constructor; lia). simpl.
  by replace ((len - 1) * (N * 1)) with ((len - 1) * N) by lia.
Qed.

Lemma filled_lookup (A E : ndarray) (B N : Z) (d : list Z) (i k : Z) :
  filled A E B N (λ _ _, True) d → 0 ≤ i < B → 0 ≤ k < N →
  ∃ lo hi, item1 E i = Some lo ∧ item1 E (i + 1) = Some hi ∧
    d !! Z.to_nat (i * N + k) = Some (wrap_long (column_sum A k lo hi)).
Proof.
  intros [_ Hd] Hi Hk. destruct (Hd i k Hi Hk) as (lo & hi & ? & ? & Hc).
  exists lo, hi. split_and!; [done..|]. destruct Hc as [[_ ?]|[? _]]; [done|tauto].
Qed.

(** The sum of two sample arrays whose element-wise sums fit a [uint8]. *)
Lemma np_add_samples (A A' : ndarray) (T N : Z) :
  is_samples A T N → is_samples A' T N →
  Forall2 (λ x y, x + y ≤ 255) (nd_data A) (nd_data A') →
  is_samples (np_add A A') T N ∧
  ∀ j k, default 0 (item2 (np_add A A') j k) =
         default 0 (item2 A j k) + default 0 (item2 A' j k).
Proof.
  intros (HdA & HsA & HT & HN & HlA & HrA) (HdA' & HsA' & _ & _ & HlA' & HrA') Hfit.
  split.
  - unfold is_samples, np_add. simpl. rewrite HdA.
    split_and!; try done; try lia.
    + rewrite length_zip_with. lia.
    + apply Forall_lookup. intros i z Hz.
      apply lookup_zip_with_Some in Hz as (x & y & -> & _ & _).
      simpl. unfold wrap_uint8. apply Z.mod_pos_bound. lia.
  - intros j k. unfold item2, np_add. simpl. rewrite HsA, HsA'.
    case_decide as Hin; [|done].
    assert (0 ≤ j * N + k < T * N) as Hidx by nia.
    destruct (lookup_lt_is_Some_2 (nd_data A) (Z.to_nat (j * N + k)))
      as [x Hx]; [lia|].
    destruct (lookup_lt_is_Some_2 (nd_data A') (Z.to_nat (j * N + k)))
      as [y Hy]; [lia|].
    rewrite Hx, Hy.
    rewrite (proj2 (lookup_zip_with_Some _ _ _ _ _) (ex_intro _ x (ex_intro _ y
               (conj eq_refl (conj Hx Hy))))).
    simpl. rewrite HdA. simpl. unfold wrap_uint8.
    rewrite Forall_lookup in HrA, HrA'.
    pose proof (HrA _ _ Hx). pose proof (HrA' _ _ Hy).
    pose proof (Forall2_lookup_lr _ _ _ _ _ _ Hfit Hx Hy). simpl in *.
    apply Z.mod_small. lia.
Qed.

Lemma bin_result_Done (h : gmap nat ndarray) (a bins out : nat) (R : ndarray) :
  bin_data a bins h = Done (out, <[out := R]> h) →
  bin_result a bins h = Done R.
Proof.
  intros Hrun. unfold bin_result. rewrite Hrun. simpl.
  by rewrite lookup_insert_eq.
Qed.

(** ** The binning aggregator: results *)

(** Side conditions on concrete arrays. *)
Ltac forall_lia :=
  repeat (apply List.Forall_cons; [simpl; lia|]); apply List.Forall_nil.

Ltac samples_ok :=
  unfold is_samples, long_max; simpl;
  split_and!; try reflexivity; try lia; forall_lia.


(** C2. For every sample array of shape [(T, N)] with values in {0, 1} and
    every ascending edge array of length [B + 1] with values in [0, T],
    [bin_data] returns a newly allocated [long] array of shape [(B, N)]
    (a location that was free, in a heap otherwise unchanged) whose element
    [(i, k)] is the sum of [samples[j][k]] over
    [bin_edges[i] <= j < bin_edges[i+1]].  For the edges [0, 2, 4] and the
    samples [[1],[0],[1],[1]] the result is [[1],[2]]. *)
Theorem bin_data_sums :
  (∀ (h : gmap nat ndarray) (a bins : nat) (A E : ndarray) (T N B : Z),
     h !! a = Some A → h !! bins = Some E →
     is_samples A T N → Forall (λ v, v = 0 ∨ v = 1) (nd_data A) →
     is_edges E (B + 1) → 0 ≤ B →
     ascending (nd_data E) → Forall (λ e, 0 ≤ e ≤ T) (nd_data E) →
     ∃ out R, bin_data a bins h = Done (out, <[out := R]> h) ∧
       h !! out = None ∧
       nd_dtype R = Long ∧ nd_shape R = [B; N] ∧
       Z.of_nat (length (nd_data R)) = B * N ∧
       ∀ i k, 0 ≤ i < B → 0 ≤ k < N →
         ∃ lo hi, item1 E i = Some lo ∧ item1 E (i + 1) = Some hi ∧
                  item2 R i k = Some (column_sum A k lo hi)) ∧
  bin_data 0 1 ex_bin_heap =
    Done (2%nat, <[2%nat := NdArray Long [2; 1] [1; 2]]> ex_bin_heap).
Proof.
  split; [|by vm_compute].
  intros h a bins A E T N B Ha Hb SA Hbits SE HB _ Hrange.
  destruct (bin_data_filled h a bins A E T N B) as (out & d & Hrun & Hout & Hfill);
    [done..|].
  exists out, (NdArray Long [B; N] d). split_and!; try done; [apply Hfill|].
  intros i k Hi Hk.
  destruct (filled_item2 A E B N d i k Hfill Hi Hk) as (lo & hi & Hlo & Hhi & Hit).
  exists lo, hi. split_and!; [done..|]. rewrite Hit. f_equal.
  apply wrap_long_small.
  pose proof (column_sum_bits A k lo hi Hbits).
  rewrite Forall_forall in Hrange.
  pose proof (Hrange lo (item1_elem_of _ _ _ Hlo)).
  pose proof (Hrange hi (item1_elem_of _ _ _ Hhi)).
  destruct SA as (_ & _ & HT & _). unfold long_min, long_max in *. lia.
Qed.

Lemma bin_data_sums_witness :
  ∃ out R, bin_data 0 1 ex_bin_heap = Done (out, <[out := R]> ex_bin_heap) ∧
    ex_bin_heap !! out = None ∧
    nd_dtype R = Long ∧ nd_shape R = [2; 1] ∧
    Z.of_nat (length (nd_data R)) = 2 * 1 ∧
    ∀ i k, 0 ≤ i < 2 → 0 ≤ k < 1 →
      ∃ lo hi, item1 ex_edges i = Some lo ∧ item1 ex_edges (i + 1) = Some hi ∧
               item2 R i k = Some (column_sum ex_samples k lo hi).
Proof.
  apply (proj1 bin_data_sums ex_bin_heap 0%nat 1%nat ex_samples ex_edges 4 1 2);
    try reflexivity.
  - samples_ok.
  - forall_lia.
  - unfold is_edges. done.
  - lia.
  - intros [|[|[|i]]] x y; simpl; intros [= <-] [= <-]; lia.
  - forall_lia.
Defined.

(** C5. For every valid input and every bin with
    [bin_edges[i] = bin_edges[i+1]], row [i] of the result is all zeros; in
    particular, with the edges [0, 0, 2] the first row of the result is
    zero whatever the samples hold. *)
Theorem bin_data_empty_bin :
  (∀ (h : gmap nat ndarray) (a bins : nat) (A E : ndarray) (T N B : Z),
     h !! a = Some A → h !! bins = Some E →
     is_samples A T N → is_edges E (B + 1) → 0 ≤ B →
     ascending (nd_data E) → Forall (λ e, 0 ≤ e ≤ T) (nd_data E) →
     ∃ out R, bin_data a bins h = Done (out, <[out := R]> h) ∧
       ∀ i e, 0 ≤ i < B → item1 E i = Some e → item1 E (i + 1) = Some e →
         ∀ k, 0 ≤ k < N → item2 R i k = Some 0) ∧
  (∀ (h : gmap nat ndarray) (a bins : nat) (A E : ndarray) (T N : Z),
     h !! a = Some A → h !! bins = Some E →
     is_samples A T N → is_edges E 3 → nd_data E = [0; 0; 2] → 2 ≤ T →
     ∃ out R, bin_data a bins h = Done (out, <[out := R]> h) ∧
       ∀ k, 0 ≤ k < N → item2 R 0 k = Some 0).
Proof.
  assert (∀ (h : gmap nat ndarray) (a bins : nat) (A E : ndarray) (T N B : Z),
     h !! a = Some A → h !! bins = Some E →
     is_samples A T N → is_edges E (B + 1) → 0 ≤ B →
     Forall (λ e, 0 ≤ e ≤ T) (nd_data E) →
     ∃ out R, bin_data a bins h = Done (out, <[out := R]> h) ∧
       ∀ i e, 0 ≤ i < B → item1 E i = Some e → item1 E (i + 1) = Some e →
         ∀ k, 0 ≤ k < N → item2 R i k = Some 0) as Hgen.
  { intros h a bins A E T N B Ha Hb SA SE HB Hrange.
    destruct (bin_data_filled h a bins A E T N B)
      as (out & d & Hrun & Hout & Hfill); [done..|].
    exists out, (NdArray Long [B; N] d). split; [done|].
    intros i e Hi Hlo Hhi k Hk.
    destruct (filled_item2 A E B N d i k Hfill Hi Hk)
      as (lo & hi & Hlo' & Hhi' & ->).
    assert (lo = e ∧ hi = e) as [-> ->] by (split; congruence).
    by rewrite column_sum_empty by lia. }
  split.
  - intros h a bins A E T N B Ha Hb SA SE HB _ Hrange. by eapply Hgen.
  - intros h a bins A E T N Ha Hb SA SE HE HT.
    destruct (Hgen h a bins A E T N 2) as (out & R & Hrun & Hzero);
      [done..|lia| |].
    { rewrite HE. forall_lia. }
    exists out, R. split; [done|]. intros k Hk.
    apply (Hzero 0 0); [lia| | |done]; unfold item1; by rewrite HE.
Qed.

Lemma bin_data_empty_bin_witness :
  ∃ out R, bin_data 0 1 ex_heap_empty_bin =
             Done (out, <[out := R]> ex_heap_empty_bin) ∧
    ∀ k, 0 ≤ k < 1 → item2 R 0 k = Some 0.
Proof.
  apply (proj2 bin_data_empty_bin ex_heap_empty_bin 0%nat 1%nat ex_samples
           (NdArray Long [3] [0; 0; 2]) 4 1); try reflexivity; [|done|lia].
  samples_ok.
Defined.

(** C10. For every input whose edges all lie in [0, T], ascending or not,
    the call returns, and a bin with [bin_edges[i] > bin_edges[i+1]] has an
    empty range of rows: row [i] of the result is all zeros, as for a bin
    of width zero. *)
Theorem bin_data_decreasing_edges (h : gmap nat ndarray) (a bins : nat)
    (A E : ndarray) (T N B : Z) :
  h !! a = Some A → h !! bins = Some E →
  is_samples A T N → is_edges E (B + 1) → 0 ≤ B →
  Forall (λ e, 0 ≤ e ≤ T) (nd_data E) →
  ∃ out R, bin_data a bins h = Done (out, <[out := R]> h) ∧
    nd_shape R = [B; N] ∧
    ∀ i lo hi, 0 ≤ i < B → item1 E i = Some lo → item1 E (i + 1) = Some hi →
      hi < lo → xrange lo hi = [] ∧ ∀ k, 0 ≤ k < N → item2 R i k = Some 0.
Proof.
  intros Ha Hb SA SE HB Hrange.
  destruct (bin_data_filled h a bins A E T N B)
    as (out & d & Hrun & Hout & Hfill); [done..|].
  exists out, (NdArray Long [B; N] d). split_and!; [done..|].
  intros i lo hi Hi Hlo Hhi Hdec. split; [apply xrange_nil; lia|].
  intros k Hk.
  destruct (filled_item2 A E B N d i k Hfill Hi Hk)
    as (lo' & hi' & Hlo' & Hhi' & ->).
  assert (lo' = lo ∧ hi' = hi) as [-> ->] by (split; congruence).
  by rewrite column_sum_empty by lia.
Qed.

Lemma bin_data_decreasing_edges_witness :
  ∃ out R, bin_data 0 1 ex_heap_decreasing =
             Done (out, <[out := R]> ex_heap_decreasing) ∧
    nd_shape R = [2; 1] ∧
    ∀ i lo hi, 0 ≤ i < 2 → item1 (NdArray Long [3] [3; 1; 4]) i = Some lo →
      item1 (NdArray Long [3] [3; 1; 4]) (i + 1) = Some hi →
      hi < lo → xrange lo hi = [] ∧ ∀ k, 0 ≤ k < 1 → item2 R i k = Some 0.
Proof.
  apply (bin_data_decreasing_edges ex_heap_decreasing 0%nat 1%nat ex_samples
           (NdArray Long [3] [3; 1; 4]) 4 1 2); try reflexivity; [|done|lia|].
  - samples_ok.
  - forall_lia.
Defined.

(** C6. Whenever [bin_data] returns, its result has the shape
    [(len(bin_edges) - 1, N)]; it returns an array of that shape for every
    input that meets the contract; with a single edge the result has no
    rows, for any [N] and any edge value; and with no channels the result
    is a [(B, 0)] array. *)
Theorem bin_data_shape :
  (∀ (h h' : gmap nat ndarray) (a bins out : nat),
     bin_data a bins h = Done (out, h') →
     ∃ A E R T N len,
       h !! a = Some A ∧ nd_shape A = [T; N] ∧
       h !! bins = Some E ∧ nd_shape E = [len] ∧
       h' !! out = Some R ∧ nd_shape R = [len - 1; N]) ∧
  (∀ (h : gmap nat ndarray) (a bins : nat) (A E : ndarray) (T N B : Z),
     h !! a = Some A → h !! bins = Some E →
     is_samples A T N → is_edges E (B + 1) → 0 ≤ B →
     Forall (λ e, 0 ≤ e ≤ T) (nd_data E) →
     ∃ out R, bin_data a bins h = Done (out, <[out := R]> h) ∧
       nd_shape R = [B; N] ∧ Z.of_nat (length (nd_data R)) = B * N) ∧
  (∀ (h : gmap nat ndarray) (a bins : nat) (A E : ndarray) (T N : Z),
     h !! a = Some A → h !! bins = Some E →
     is_samples A T N → is_edges E 1 →
     ∃ out, bin_data a bins h = Done (out, <[out := NdArray Long [0; N] []]> h)) ∧
  (∀ (h : gmap nat ndarray) (a bins : nat) (A E : ndarray) (T B : Z),
     h !! a = Some A → h !! bins = Some E →
     is_samples A T 0 → is_edges E (B + 1) → 0 ≤ B →
     ∃ out, bin_data a bins h = Done (out, <[out := NdArray Long [B; 0] []]> h)).
Proof.
  split_and!.
  - intros h h' a bins out Hrun.
    destruct (bin_data_Done _ _ _ _ _ Hrun)
      as (A & E & T & N & len & Ha & Hb & _ & HsA & _ & HsE & _ & _ & _ & Hk).
    pose proof (_bin_data_shapes _ _ _ _ _ out Hk) as Hs.
    rewrite lookup_insert_eq in Hs. simpl in Hs.
    apply fmap_Some in Hs as (R & HR & HsR).
    exists A, E, R, T, N, len. split_and!; done.
  - intros h a bins A E T N B Ha Hb SA SE HB Hrange.
    destruct (bin_data_filled h a bins A E T N B)
      as (out & d & Hrun & _ & Hlen & _); [done..|].
    by exists out, (NdArray Long [B; N] d).
  - intros h a bins A E T N Ha Hb SA SE. exists (fresh (dom h)).
    rewrite (bin_data_unfold h a bins A E T N 1) by (done || lia).
    unfold _bin_data, shape_at.
    assert (h !! fresh (dom h) = None) as Hout
      by (apply not_elem_of_dom, is_fresh).
    rewrite (lookup_insert_ne _ (fresh (dom h)) bins), Hb by congruence.
    destruct SE as (_ & HsE & _). simpl. rewrite HsE. simpl.
    rewrite ?outcome_Done_bind, lookup_insert_eq. simpl.
    rewrite ?outcome_Done_bind, for_each_skip by done. done.
  - intros h a bins A E T B Ha Hb SA SE HB. exists (fresh (dom h)).
    rewrite (bin_data_unfold h a bins A E T 0 (B + 1)) by (done || lia).
    unfold _bin_data, shape_at.
    assert (h !! fresh (dom h) = None) as Hout
      by (apply not_elem_of_dom, is_fresh).
    rewrite (lookup_insert_ne _ (fresh (dom h)) bins), Hb by congruence.
    destruct SE as (_ & HsE & _). simpl. rewrite HsE. simpl.
    rewrite ?outcome_Done_bind, lookup_insert_eq. simpl.
    rewrite ?outcome_Done_bind. simpl.
    replace (B + 1 - 1) with B by lia.
    by replace (Z.to_nat (B * 0)) with 0%nat by lia.
Qed.

Lemma bin_data_shape_witness :
  ∃ A E R T N len,
    ex_bin_heap !! 0%nat = Some A ∧ nd_shape A = [T; N] ∧
    ex_bin_heap !! 1%nat = Some E ∧ nd_shape E = [len] ∧
    <[2%nat := NdArray Long [2; 1] [1; 2]]> ex_bin_heap !! 2%nat = Some R ∧
    nd_shape R = [len - 1; N].
Proof.
  apply (proj1 bin_data_shape ex_bin_heap _ 0%nat 1%nat 2%nat).
  vm_compute. reflexivity.
Defined.

(** C7. [bin_data] has no check of the edge values: for well-typed
    arguments with an edge outside [0, T] the call never raises; it either
    returns or runs into an unchecked out-of-bounds access, as it does for
    the edges [0, 5] on four rows of samples. *)
Theorem bin_data_no_validation :
  (∀ (h : gmap nat ndarray) (a bins : nat) (A E : ndarray) (T N len : Z),
     h !! a = Some A → h !! bins = Some E →
     is_samples A T N → is_edges E len →
     (∃ e, e ∈ nd_data E ∧ ¬ (0 ≤ e ≤ T)) →
     ∀ x, bin_data a bins h ≠ Raised x) ∧
  bin_data 0 1 ex_heap_out_of_range = Undefined.
Proof.
  split; [|by vm_compute].
  intros h a bins A E T N len Ha Hb SA SE (e & He & _) x.
  assert (1 ≤ len) as Hlen.
  { destruct SE as (_ & _ & <-). destruct (nd_data E); [by apply elem_of_nil in He|].
    simpl. lia. }
  rewrite (bin_data_unfold h a bins A E T N len) by done.
  destruct (_bin_data a bins _ _) as [h2|e'|] eqn:Hrun; simpl; [done| |done].
  by apply _bin_data_not_Raised in Hrun.
Qed.

Lemma bin_data_no_validation_witness :
  bin_data 0 1 ex_heap_out_of_range ≠ Raised ValueError ∧
  bin_data 0 1 ex_heap_out_of_range ≠ Raised TypeError.
Proof.
  assert (∀ x, bin_data 0 1 ex_heap_out_of_range ≠ Raised x) as Hno; [|done].
  apply (proj1 bin_data_no_validation ex_heap_out_of_range 0%nat 1%nat
           ex_samples (NdArray Long [2] [0; 5]) 4 1 2); try reflexivity.
  - samples_ok.
  - done.
  - exists 5. split; [|lia]. right. left.
Defined.

(** C4 (amended). For sample arrays [a] and [b] of one shape whose
    element-wise sums do not exceed 255 (so that numpy's [uint8] sum
    [a + b] does not wrap; 0/1 samples are such), and every valid edge
    array, [bin_data(a + b, edges)] is the element-wise sum of
    [bin_data(a, edges)] and [bin_data(b, edges)]. *)
Theorem bin_data_linear (h : gmap nat ndarray) (a b s bins : nat)
    (A A' E : ndarray) (T N B : Z) :
  h !! a = Some A → h !! b = Some A' → h !! s = Some (np_add A A') →
  h !! bins = Some E →
  is_samples A T N → is_samples A' T N →
  is_edges E (B + 1) → 0 ≤ B →
  ascending (nd_data E) → Forall (λ e, 0 ≤ e ≤ T) (nd_data E) →
  Forall2 (λ x y, x + y ≤ 255) (nd_data A) (nd_data A') →
  ∃ Rs Ra Rb,
    bin_result s bins h = Done Rs ∧
    bin_result a bins h = Done Ra ∧
    bin_result b bins h = Done Rb ∧
    Rs = np_add Ra Rb.
Proof.
  intros Ha Hb Hs Hbins SA SA' SE HB _ Hrange Hfit.
  destruct (np_add_samples A A' T N SA SA' Hfit) as [SS Hsum].
  destruct (bin_data_filled h s bins _ E T N B Hs Hbins SS SE HB Hrange)
    as (os & ds & Hrs & _ & Hfs).
  destruct (bin_data_filled h a bins _ E T N B Ha Hbins SA SE HB Hrange)
    as (oa & da & Hra & _ & Hfa).
  destruct (bin_data_filled h b bins _ E T N B Hb Hbins SA' SE HB Hrange)
    as (ob & db & Hrb & _ & Hfb).
  exists (NdArray Long [B; N] ds), (NdArray Long [B; N] da),
    (NdArray Long [B; N] db).
  split_and!; [by eapply bin_result_Done..|].
  unfold np_add. simpl. f_equal.
  pose proof (proj1 Hfs) as Hls. pose proof (proj1 Hfa) as Hla.
  pose proof (proj1 Hfb) as Hlb.
  apply list_eq_same_length with (Z.to_nat (B * N)); [|lia|].
  { rewrite length_zip_with. lia. }
  intros idx x z Hidx Hx Hz.
  assert (0 < N) as HN by nia.
  pose proof (Z.div_mod (Z.of_nat idx) N).
  pose proof (Z.mod_pos_bound (Z.of_nat idx) N HN).
  assert (0 ≤ Z.of_nat idx `div` N < B) as Hi.
  { split; [apply Z.div_pos; lia|]. apply Z.div_lt_upper_bound; nia. }
  set (i := Z.of_nat idx `div` N) in *. set (k := Z.of_nat idx `mod` N) in *.
  assert (idx = Z.to_nat (i * N + k)) as Hidx' by lia.
  destruct (filled_lookup _ _ _ _ _ i k Hfs) as (lo & hi & Hlo & Hhi & Hvs);
    [done..|].
  destruct (filled_lookup _ _ _ _ _ i k Hfa) as (lo1 & hi1 & Hlo1 & Hhi1 & Hva);
    [done..|].
  destruct (filled_lookup _ _ _ _ _ i k Hfb) as (lo2 & hi2 & Hlo2 & Hhi2 & Hvb);
    [done..|].
  assert (lo1 = lo ∧ hi1 = hi ∧ lo2 = lo ∧ hi2 = hi) as (-> & -> & -> & ->)
    by (split_and!; congruence).
  rewrite <- Hidx' in Hvs, Hva, Hvb.
  apply lookup_zip_with_Some in Hz as (u & v & -> & Hu & Hv).
  assert (x = wrap_long (column_sum (np_add A A') k lo hi)) as -> by congruence.
  assert (u = wrap_long (column_sum A k lo hi)) as -> by congruence.
  assert (v = wrap_long (column_sum A' k lo hi)) as -> by congruence.
  pose proof (wrap_long_add (column_sum A k lo hi) (column_sum A' k lo hi))
    as Hw.
  unfold long_add in Hw. simpl. rewrite <- Hw. f_equal. unfold column_sum.
  rewrite <- Zsum_fmap_add. apply Zsum_fmap_ext. intros j _. apply Hsum.
Qed.

Lemma bin_data_linear_witness :
  ∃ Rs Ra Rb,
    bin_result 2 3 (ex_heap_sum 1 1) = Done Rs ∧
    bin_result 0 3 (ex_heap_sum 1 1) = Done Ra ∧
    bin_result 1 3 (ex_heap_sum 1 1) = Done Rb ∧
    Rs = np_add Ra Rb.
Proof.
  apply (bin_data_linear (ex_heap_sum 1 1) 0%nat 1%nat 2%nat 3%nat
           (NdArray UInt8 [1; 1] [1]) (NdArray UInt8 [1; 1] [1])
           (NdArray Long [2] [0; 1]) 1 1 1); try reflexivity.
  - samples_ok.
  - samples_ok.
  - done.
  - lia.
  - intros [|[|i]] x y; simpl; intros [= <-] [= <-]; lia.
  - forall_lia.
  - repeat constructor. simpl. lia.
Defined.

(** C4 as stated fails for [uint8] samples whose sum wraps: with
    [a = [[200]]], [b = [[100]]] and the edges [0, 1], numpy's [a + b] is
    [[44]], so the bins of [a + b] hold 44 while the bins of [a] and of [b]
    add up to 300. *)
Lemma bin_data_not_linear_when_uint8_wraps :
  ex_heap_sum 200 100 !! 2%nat = Some (NdArray UInt8 [1; 1] [44]) ∧
  bin_result 2 3 (ex_heap_sum 200 100) = Done (NdArray Long [1; 1] [44]) ∧
  bin_result 0 3 (ex_heap_sum 200 100) = Done (NdArray Long [1; 1] [200]) ∧
  bin_result 1 3 (ex_heap_sum 200 100) = Done (NdArray Long [1; 1] [100]) ∧
  np_add (NdArray Long [1; 1] [200]) (NdArray Long [1; 1] [100]) =
    NdArray Long [1; 1] [300] ∧
  NdArray Long [1; 1] [44] ≠
    np_add (NdArray Long [1; 1] [200]) (NdArray Long [1; 1] [100]).
Proof. split_and!; [by vm_compute..|]. vm_compute. intros [=]. Qed.

(** * Further properties of the kernels *)

(** ** The binning aggregator: effects on the heap *)

Section bin_effects.

Implicit Types (h : gmap nat ndarray) (a bins out p : nat) (A E R : ndarray).

Lemma store_frame p i z h h' q :
  store p i z h = Done h' → q ≠ p → h' !! q = h !! q.
Proof.
  unfold store. destruct (h !! p) as [A|]; [|done].
  case_decide; [|done]. intros [= <-] Hq. by rewrite lookup_insert_ne.
Qed.

Lemma accumulate_frame a out n i j k h h' q :
  accumulate a out n i j k h = Done h' → q ≠ out → h' !! q = h !! q.
Proof.
  unfold accumulate.
  destruct (load a (j * n + k) h) as [x| |]; simpl; [|done..].
  destruct (load out (i * n + k) h) as [y| |]; simpl; [|done..].
  apply store_frame.
Qed.

Lemma bin_loop_frame a bins out n k i h h' q :
  bin_loop a bins out n k i h = Done h' → q ≠ out → h' !! q = h !! q.
Proof.
  unfold bin_loop.
  destruct (load bins i h) as [lo| |]; simpl; [|done..].
  destruct (load bins (i + 1) h) as [hi| |]; simpl; [|done..].
  intros Hrun Hq.
  apply (for_each_preserves (λ s, s !! q = h !! q)) in Hrun; [done| |done].
  intros j s s' Hacc Hs. by rewrite (accumulate_frame _ _ _ _ _ _ _ _ q Hacc).
Qed.

(** The kernel writes to [out] only. *)
Lemma _bin_data_writes_out_only a bins out h h' q :
  _bin_data a bins out h = Done h' → q ≠ out → h' !! q = h !! q.
Proof.
  unfold _bin_data.
  destruct (shape_at bins 0 h) as [nbins| |]; simpl; [|done..].
  destruct (shape_at out 1 h) as [n| |]; simpl; [|done..].
  intros Hrun Hq.
  apply (for_each_preserves (λ s, s !! q = h !! q)) in Hrun; [done| |done].
  intros k s s' Hk Hs. rewrite <- Hs.
  apply (for_each_preserves (λ s0, s0 !! q = s !! q)) in Hk; [done| |done].
  intros i s1 s1' Hi Hs1. by rewrite (bin_loop_frame _ _ _ _ _ _ _ _ q Hi).
Qed.

(** The heap after a call of [bin_data] that returns. *)
Lemma bin_data_heap h h' a bins out :
  bin_data a bins h = Done (out, h') →
  h !! out = None ∧ is_Some (h' !! out) ∧
  ∀ p, p ≠ out → h' !! p = h !! p.
Proof.
  intros Hrun.
  destruct (bin_data_Done _ _ _ _ _ Hrun)
    as (A & E & T & N & len & _ & _ & _ & _ & _ & _ & _ & _ & Hout & Hk).
  split; [done|]. split.
  - pose proof (_bin_data_shapes _ _ _ _ _ out Hk) as Hs.
    rewrite lookup_insert_eq in Hs. simpl in Hs.
    apply fmap_Some in Hs as (R & HR & _). eauto.
  - intros p Hp. rewrite (_bin_data_writes_out_only _ _ _ _ _ p Hk Hp).
    by rewrite lookup_insert_ne.
Qed.

End bin_effects.

(** X1. A call of [bin_data] that returns has allocated its result at a
    location that was free and has changed nothing else: every array that
    was in the heap, the samples and the edges among them, is as before.
    This holds for every heap and every pair of arguments, edges outside
    the samples included. *)
Theorem bin_data_frame (h h' : gmap nat ndarray) (a bins out : nat) :
  bin_data a bins h = Done (out, h') →
  h !! out = None ∧ is_Some (h' !! out) ∧
  ∀ p, p ≠ out → h' !! p = h !! p.
Proof. apply bin_data_heap. Qed.

Lemma bin_data_frame_witness :
  ex_bin_heap !! 2%nat = None ∧
  is_Some (<[2%nat := NdArray Long [2; 1] [1; 2]]> ex_bin_heap !! 2%nat) ∧
  ∀ p, p ≠ 2%nat →
    <[2%nat := NdArray Long [2; 1] [1; 2]]> ex_bin_heap !! p = ex_bin_heap !! p.
Proof.
  apply (bin_data_frame ex_bin_heap _ 0%nat 1%nat 2%nat).
  vm_compute. reflexivity.
Defined.

(** X2. Two calls of [bin_data] in a row return two different arrays, and
    the second call leaves the result of the first as it was. *)
Theorem bin_data_fresh_results (h h1 h2 : gmap nat ndarray)
    (a bins a' bins' o1 o2 : nat) :
  bin_data a bins h = Done (o1, h1) →
  bin_data a' bins' h1 = Done (o2, h2) →
  o1 ≠ o2 ∧ is_Some (h1 !! o1) ∧ h2 !! o1 = h1 !! o1.
Proof.
  intros (_ & [R HR] & _)%bin_data_heap (Hfree & _ & Hfr)%bin_data_heap.
  assert (o1 ≠ o2) as Hne by (intros ->; congruence).
  split_and!; [done|eauto|]. by apply Hfr.
Qed.

Lemma bin_data_fresh_results_witness :
  2%nat ≠ 3%nat ∧
  is_Some (<[2%nat := NdArray Long [2; 1] [1; 2]]> ex_bin_heap !! 2%nat) ∧
  <[3%nat := NdArray Long [2; 1] [1; 2]]>
    (<[2%nat := NdArray Long [2; 1] [1; 2]]> ex_bin_heap) !! 2%nat =
  <[2%nat := NdArray Long [2; 1] [1; 2]]> ex_bin_heap !! 2%nat.
Proof.
  apply (bin_data_fresh_results ex_bin_heap _ _ 0%nat 1%nat 0%nat 1%nat).
  - vm_compute. reflexivity.
  - vm_compute. reflexivity.
Defined.

(** X3. With an empty edge array the requested result has [-1] rows:
    [bin_data] raises [ValueError] from [np.zeros] before the kernel runs. *)
Theorem bin_data_no_edges (h : gmap nat ndarray) (a bins : nat)
    (A E : ndarray) (T N : Z) :
  h !! a = Some A → h !! bins = Some E →
  is_samples A T N → is_edges E 0 →
  bin_data a bins h = Raised ValueError.
Proof.
  intros Ha Hb (HdA & HsA & _) (HdE & HsE & _).
  unfold bin_data, not_none, acquire, shape_at. rewrite Ha, Hb.
  rewrite !outcome_Done_bind.
  rewrite !decide_True by (by rewrite ?HdA, ?HsA, ?HdE, ?HsE).
  simpl. rewrite HsE, HsA. reflexivity.
Qed.

Lemma bin_data_no_edges_witness :
  bin_data 0 1 ex_heap_no_edges = Raised ValueError.
Proof.
  apply (bin_data_no_edges ex_heap_no_edges 0%nat 1%nat ex_samples
           (NdArray Long [0] []) 4 1); try reflexivity; [samples_ok|done].
Defined.

(** ** The binning aggregator: sums of arbitrary samples *)

Lemma Zsum_fmap_bounds_by {A : Type} (m : Z) (f : A → Z) (l : list A) :
  (∀ x, x ∈ l → 0 ≤ f x ≤ m) →
  0 ≤ Zsum (f <$> l) ≤ m * Z.of_nat (length l).
Proof.
  induction l as [|x l IH]; intros Hf; [simpl; lia|].
  rewrite fmap_cons, Zsum_cons, length_cons.
  pose proof (Hf x (list_elem_of_here _ _)).
  assert (0 ≤ Zsum (f <$> l) ≤ m * Z.of_nat (length l)).
  { apply IH. intros y Hy. apply Hf. by right. }
  nia.
Qed.

Lemma column_sum_bounds (A : ndarray) (m k lo hi : Z) :
  0 ≤ m → Forall (λ v, 0 ≤ v ≤ m) (nd_data A) →
  0 ≤ column_sum A k lo hi ≤ m * Z.max 0 (hi - lo).
Proof.
  intros Hm Hle. unfold column_sum. rewrite <- length_xrange.
  apply Zsum_fmap_bounds_by. intros j _.
  destruct (item2 A j k) as [x|] eqn:Hx; simpl; [|lia].
  rewrite Forall_forall in Hle. apply Hle. by eapply item2_elem_of.
Qed.

Lemma Zsum_app (l1 l2 : list Z) : Zsum (l1 ++ l2) = Zsum l1 + Zsum l2.
Proof.
  induction l1 as [|x l1 IH]; [done|].
  rewrite <- app_comm_cons, !Zsum_cons, IH. lia.
Qed.

Lemma xrange_split (lo mid hi : Z) :
  lo ≤ mid ≤ hi → xrange lo hi = xrange lo mid ++ xrange mid hi.
Proof.
  intros Hle. unfold xrange.
  replace (hi - lo) with ((mid - lo) + (hi - mid)) by lia.
  rewrite seqZ_app by lia. do 2 f_equal; lia.
Qed.

(** Sums over adjoining row ranges add up. *)
Lemma column_sum_split (A : ndarray) (k lo mid hi : Z) :
  lo ≤ mid ≤ hi →
  column_sum A k lo hi = column_sum A k lo mid + column_sum A k mid hi.
Proof.
  intros Hle. unfold column_sum.
  by rewrite (xrange_split lo mid hi), fmap_app, Zsum_app.
Qed.


(** The result of a call within the contract, element by element. *)
Lemma bin_result_items (h : gmap nat ndarray) (a bins : nat) (A E : ndarray)
    (T N B : Z) :
  h !! a = Some A → h !! bins = Some E →
  is_samples A T N → is_edges E (B + 1) → 0 ≤ B →
  Forall (λ e, 0 ≤ e ≤ T) (nd_data E) →
  ∃ R, bin_result a bins h = Done R ∧
    ∀ i k, 0 ≤ i < B → 0 ≤ k < N →
      ∃ lo hi, item1 E i = Some lo ∧ item1 E (i + 1) = Some hi ∧
        0 ≤ lo ≤ T ∧ 0 ≤ hi ≤ T ∧
        item2 R i k = Some (wrap_long (column_sum A k lo hi)).
Proof.
  intros Ha Hb SA SE HB Hrange.
  destruct (bin_data_filled h a bins A E T N B)
    as (out & d & Hrun & Hout & Hfill); [done..|].
  exists (NdArray Long [B; N] d). split; [by eapply bin_result_Done|].
  intros i k Hi Hk.
  destruct (filled_item2 A E B N d i k Hfill Hi Hk) as (lo & hi & Hlo & Hhi & Hit).
  exists lo, hi. rewrite Forall_forall in Hrange.
  pose proof (Hrange lo (item1_elem_of _ _ _ Hlo)).
  pose proof (Hrange hi (item1_elem_of _ _ _ Hhi)).
  split_and!; try done; lia.
Qed.

(** X4. For samples with arbitrary [uint8] values and edges in [0, T],
    element [(i, k)] of the result is the column sum of bin [i] reduced to
    a 64-bit [long]; the sum is at most 255 times the bin width, so the
    element is the exact sum whenever [255 * T] fits a [long]. *)
Theorem bin_data_uint8_sums (h : gmap nat ndarray) (a bins : nat)
    (A E : ndarray) (T N B : Z) :
  h !! a = Some A → h !! bins = Some E →
  is_samples A T N → is_edges E (B + 1) → 0 ≤ B →
  Forall (λ e, 0 ≤ e ≤ T) (nd_data E) →
  ∃ R, bin_result a bins h = Done R ∧
    ∀ i k, 0 ≤ i < B → 0 ≤ k < N →
      ∃ lo hi, item1 E i = Some lo ∧ item1 E (i + 1) = Some hi ∧
        item2 R i k = Some (wrap_long (column_sum A k lo hi)) ∧
        0 ≤ column_sum A k lo hi ≤ 255 * Z.max 0 (hi - lo) ∧
        (255 * T ≤ long_max → item2 R i k = Some (column_sum A k lo hi)).
Proof.
  intros Ha Hb SA SE HB Hrange.
  destruct (bin_result_items h a bins A E T N B) as (R & Hrun & HR); [done..|].
  exists R. split; [done|]. intros i k Hi Hk.
  destruct (HR i k Hi Hk) as (lo & hi & Hlo & Hhi & Hlo_r & Hhi_r & Hit).
  assert (0 ≤ column_sum A k lo hi ≤ 255 * Z.max 0 (hi - lo)) as Hsum.
  { apply column_sum_bounds; [lia|].
    destruct SA as (_ & _ & _ & _ & _ & Hv).
    eapply Forall_impl; [exact Hv|]. simpl. lia. }
  exists lo, hi. split_and!; try done; try lia.
  intros Hfit. rewrite Hit. f_equal. apply wrap_long_small.
  unfold long_min. lia.
Qed.

Lemma bin_data_uint8_sums_witness :
  ∃ R, bin_result 0 1 ex_bin_heap = Done R ∧
    ∀ i k, 0 ≤ i < 2 → 0 ≤ k < 1 →
      ∃ lo hi, item1 ex_edges i = Some lo ∧ item1 ex_edges (i + 1) = Some hi ∧
        item2 R i k = Some (wrap_long (column_sum ex_samples k lo hi)) ∧
        0 ≤ column_sum ex_samples k lo hi ≤ 255 * Z.max 0 (hi - lo) ∧
        (255 * 4 ≤ long_max → item2 R i k = Some (column_sum ex_samples k lo hi)).
Proof.
  apply (bin_data_uint8_sums ex_bin_heap 0%nat 1%nat ex_samples ex_edges 4 1 2);
    try reflexivity; try lia; [samples_ok|done|forall_lia].
Defined.



(** X6. Adjoining bins tile the rows: with ascending edges, the elements
    of bins [i] and [i + 1] add up (in [long] arithmetic) to the column
    sum over [bin_edges[i] <= j < bin_edges[i+2]]: no row is counted twice
    or left out at the common edge. *)
Theorem bin_data_adjoining_bins (h : gmap nat ndarray) (a bins : nat)
    (A E : ndarray) (T N B : Z) :
  h !! a = Some A → h !! bins = Some E →
  is_samples A T N → is_edges E (B + 1) → 0 ≤ B →
  ascending (nd_data E) → Forall (λ e, 0 ≤ e ≤ T) (nd_data E) →
  ∃ R, bin_result a bins h = Done R ∧
    ∀ i k, 0 ≤ i → i + 1 < B → 0 ≤ k < N →
      ∃ lo hi x y, item1 E i = Some lo ∧ item1 E (i + 2) = Some hi ∧
        item2 R i k = Some x ∧ item2 R (i + 1) k = Some y ∧
        long_add x y = wrap_long (column_sum A k lo hi).
Proof.
  intros Ha Hb SA SE HB Hasc Hrange.
  destruct (bin_result_items h a bins A E T N B) as (R & Hrun & HR); [done..|].
  exists R. split; [done|]. intros i k Hi Hi' Hk.
  destruct (HR i k ltac:(lia) Hk) as (lo & mid & Hlo & Hmid & _ & _ & Hx).
  destruct (HR (i + 1) k ltac:(lia) Hk) as (mid' & hi & Hmid' & Hhi & _ & _ & Hy).
  rewrite Hmid in Hmid'. injection Hmid' as <-.
  replace (i + 1 + 1) with (i + 2) in Hhi by lia.
  exists lo, hi, (wrap_long (column_sum A k lo mid)),
    (wrap_long (column_sum A k mid hi)).
  split_and!; [done..|].
  rewrite <- wrap_long_add. f_equal. symmetry. apply column_sum_split.
  unfold item1 in Hlo, Hmid, Hhi.
  rewrite decide_True in Hlo by lia. rewrite decide_True in Hmid by lia.
  rewrite decide_True in Hhi by lia.
  replace (Z.to_nat (i + 1)) with (S (Z.to_nat i)) in Hmid by lia.
  replace (Z.to_nat (i + 2)) with (S (S (Z.to_nat i))) in Hhi by lia.
  split; [by eapply Hasc|by eapply Hasc].
Qed.

Lemma bin_data_adjoining_bins_witness :
  ∃ R, bin_result 0 1 ex_bin_heap = Done R ∧
    ∀ i k, 0 ≤ i → i + 1 < 2 → 0 ≤ k < 1 →
      ∃ lo hi x y, item1 ex_edges i = Some lo ∧ item1 ex_edges (i + 2) = Some hi ∧
        item2 R i k = Some x ∧ item2 R (i + 1) k = Some y ∧
        long_add x y = wrap_long (column_sum ex_samples k lo hi).
Proof.
  apply (bin_data_adjoining_bins ex_bin_heap 0%nat 1%nat ex_samples ex_edges 4 1 2);
    try reflexivity; try lia; [samples_ok|done| |forall_lia].
  intros [|[|[|]]] x y; simpl; intros [= <-] [= <-]; lia.
Defined.



(** ** The binning aggregator: bins that reach outside the samples *)

(** Every iteration of a loop that ended normally has ended normally, from
    a state that satisfies the invariant [P]. *)
Lemma for_each_Done_elem {I S : Type} (P : S → Prop)
    (body : I → S → outcome S) (xs : list I) (s s' : S) (x : I) :
  (∀ y s1 s2, body y s1 = Done s2 → P s1 → P s2) →
  for_each xs body s = Done s' → P s → x ∈ xs →
  ∃ s1 s2, P s1 ∧ body x s1 = Done s2.
Proof.
  intros Hb. revert s. induction xs as [|y xs IH]; intros s Hrun Hs Hx.
  { by apply elem_of_nil in Hx. }
  simpl in Hrun. destruct (body y s) as [s1| |] eqn:H1; simpl in Hrun; [|done..].
  apply elem_of_cons in Hx as [-> | Hx]; [by eauto|].
  apply (IH s1); [done| |done]. by eapply Hb.
Qed.

Lemma load_Done (p : nat) (i z : Z) (h : gmap nat ndarray) :
  load p i h = Done z →
  ∃ A, h !! p = Some A ∧ 0 ≤ i < Z.of_nat (length (nd_data A)) ∧
       nd_data A !! Z.to_nat i = Some z.
Proof.
  unfold load. destruct (h !! p) as [A|]; [|done].
  case_decide; [|done].
  destruct (nd_data A !! Z.to_nat i) as [x|] eqn:Hx; [|done].
  intros [= ->]. exists A. split_and!; [done|lia| |done].
  apply lookup_lt_Some in Hx. lia.
Qed.

(** X8. With well-typed arguments and at least one channel, a non-empty
    bin that starts below row 0 or ends above row [T], and whose row
    indices times [N] fit a C [long], makes the kernel read [a_data] at an
    index outside the sample buffer: for some row [j] of the bin and some
    channel [k] the index [j * n + k], as the code computes it in [long]
    arithmetic, is negative or at least the size of the buffer.  The read
    is not checked, so the call does not raise; what it does after the
    read is not fixed by the source (it may return an array holding what
    the read found).  The model ends such a call in [Undefined]. *)
Theorem bin_data_reads_outside (h : gmap nat ndarray) (a bins : nat)
    (A E : ndarray) (T N B i lo hi : Z) :
  h !! a = Some A → h !! bins = Some E →
  is_samples A T N → is_edges E (B + 1) → 1 ≤ N →
  0 ≤ i < B → item1 E i = Some lo → item1 E (i + 1) = Some hi →
  lo < hi → lo < 0 ∨ T < hi →
  long_min ≤ lo * N → hi * N ≤ long_max →
  (∃ j k, lo ≤ j < hi ∧ 0 ≤ k < N ∧
     ¬ (0 ≤ wrap_long (j * N + k) < Z.of_nat (length (nd_data A)))) ∧
  bin_data a bins h = Undefined.
Proof.
  intros Ha Hb SA SE HN Hi Hlo Hhi Hne Hout Hmin Hmax. split.
  { exists (if decide (lo < 0) then lo else hi - 1), 0.
    destruct SA as (_ & _ & HT & _ & Hlen & _). rewrite Hlen.
    split; [case_decide; lia|]. split; [lia|].
    rewrite wrap_long_small; case_decide; unfold long_min, long_max in *; nia. }
  rewrite (bin_data_unfold h a bins A E T N (B + 1)) by (done || lia).
  set (out := fresh (dom h)). set (h1 := <[out := _]> h).
  assert (h !! out = None) as Hfree.
  { apply not_elem_of_dom. apply is_fresh. }
  assert (out ≠ a ∧ out ≠ bins) as [Hoa Hob] by (split; intros ->; congruence).
  destruct (_bin_data a bins out h1) as [h2|e|] eqn:Hk; simpl; [exfalso| |done].
  2: { by destruct (_bin_data_not_Raised a bins out h1 e). }
  set (P := λ s : gmap nat ndarray, s !! a = Some A ∧ s !! bins = Some E).
  assert (P h1) as HP1.
  { subst P h1. simpl. by rewrite !lookup_insert_ne. }
  assert (∀ n k i' s s', bin_loop a bins out n k i' s = Done s' → P s → P s')
    as Hloop.
  { intros n k i' s s' Hrun [Hsa Hsb]. split.
    - by rewrite (bin_loop_frame _ _ _ _ _ _ _ _ a Hrun).
    - by rewrite (bin_loop_frame _ _ _ _ _ _ _ _ bins Hrun). }
  assert (∀ n i' j k s s', accumulate a out n i' j k s = Done s' → P s → P s')
    as Hacc.
  { intros n i' j k s s' Hrun [Hsa Hsb]. split.
    - by rewrite (accumulate_frame _ _ _ _ _ _ _ _ a Hrun).
    - by rewrite (accumulate_frame _ _ _ _ _ _ _ _ bins Hrun). }
  unfold _bin_data, shape_at in Hk.
  destruct HP1 as [Ha1 Hb1]. rewrite Hb1 in Hk.
  assert (h1 !! out = Some (NdArray Long [B + 1 - 1; N]
            (replicate (Z.to_nat ((B + 1 - 1) * N)) 0))) as Ho1
    by (subst h1; apply lookup_insert_eq).
  rewrite Ho1 in Hk. destruct SE as (_ & HsE & _). simpl in Hk.
  rewrite HsE in Hk. simpl in Hk.
  (* the iteration k = 0 of the channel loop *)
  assert (∀ k s s',
            for_each (xrange 0 (B + 1 - 1))
              (λ i', bin_loop a bins out N k i') s = Done s' → P s → P s')
    as Hbins.
  { intros k s s'. apply (for_each_preserves P). apply Hloop. }
  destruct (for_each_Done_elem P _ _ _ _ 0 Hbins Hk (conj Ha1 Hb1))
    as (s1 & s2 & HPs1 & Hchan).
  { apply elem_of_xrange. lia. }
  (* the iteration i of the bin loop *)
  destruct (for_each_Done_elem P _ _ _ _ i (Hloop N 0) Hchan HPs1)
    as (s3 & s4 & [Hsa3 Hsb3] & Hbin).
  { apply elem_of_xrange. lia. }
  unfold bin_loop in Hbin.
  unfold item1 in Hlo, Hhi.
  rewrite decide_True in Hlo by lia. rewrite decide_True in Hhi by lia.
  unfold load at 1 2 in Hbin. rewrite Hsb3 in Hbin.
  rewrite !decide_True in Hbin by lia. rewrite Hlo, Hhi in Hbin.
  simpl in Hbin.
  (* a row of the bin that lies outside the samples *)
  set (j := if decide (lo < 0) then lo else hi - 1).
  destruct (for_each_Done_elem P _ _ _ _ j (λ j', Hacc N i j' 0) Hbin
              (conj Hsa3 Hsb3))
    as (s5 & s6 & [Hsa5 _] & Hstep).
  { apply elem_of_xrange. subst j. case_decide; lia. }
  unfold accumulate in Hstep.
  destruct (load a (j * N + 0) s5) as [x| |] eqn:Hload; simpl in Hstep; [|done..].
  apply load_Done in Hload as (A0 & HA0 & Hidx & _).
  rewrite Hsa5 in HA0. injection HA0 as <-.
  destruct SA as (_ & _ & _ & _ & Hlen & _). rewrite Hlen in Hidx.
  subst j. case_decide; nia.
Qed.

Lemma bin_data_reads_outside_witness :
  (∃ j k, 0 ≤ j < 5 ∧ 0 ≤ k < 1 ∧
     ¬ (0 ≤ wrap_long (j * 1 + k) < Z.of_nat (length (nd_data ex_samples)))) ∧
  bin_data 0 1 ex_heap_out_of_range = Undefined.
Proof.
  apply (bin_data_reads_outside ex_heap_out_of_range 0%nat 1%nat ex_samples
           (NdArray Long [2] [0; 5]) 4 1 1 0 0 5);
    try reflexivity; try (unfold long_min, long_max; lia); [samples_ok|done].
Defined.

(** ** The kernel on an output buffer that is not zero *)

Section bin_accumulate.

Context (h : gmap nat ndarray) (a bins out : nat) (A E : ndarray) (T N B : Z).
Context (d0 : list Z).
Hypothesis Ha : h !! a = Some A.
Hypothesis Hb : h !! bins = Some E.
Hypothesis Hout : h !! out = None.
Hypothesis SA : is_samples A T N.
Hypothesis SE : is_edges E (B + 1).
Hypothesis HB : 0 ≤ B.
Hypothesis Hrange : Forall (λ e, 0 ≤ e ≤ T) (nd_data E).

#[local] Abbreviation H d := (<[out := NdArray Long [B; N] d]> h).

Lemma added_weaken (Q Q' : Z → Z → Prop) d :
  added A E B N d0 Q d →
  (∀ i k, 0 ≤ i < B → 0 ≤ k < N → Q i k ↔ Q' i k) →
  added A E B N d0 Q' d.
Proof.
  intros [Hlen Hd] HQ. split; [done|]. intros i k Hi Hk.
  destruct (Hd i k Hi Hk) as (lo & hi & y0 & ? & ? & ? & ? & Hc).
  exists lo, hi, y0. split_and!; try done; try lia.
  pose proof (HQ i k Hi Hk).
  destruct Hc as [[? ?]|[? ?]]; [left|right]; split; try done; tauto.
Qed.

Lemma bin_loop_added Q d i k :
  added A E B N d0 Q d → ¬ Q i k → 0 ≤ i < B → 0 ≤ k < N →
  ∃ d', bin_loop a bins out N k i (H d) = Done (H d') ∧
        added A E B N d0 (λ i' k', Q i' k' ∨ (i' = i ∧ k' = k)) d'.
Proof.
  intros [Hlen Hd] HQ Hi Hk.
  destruct (load_edges h a bins out A E T N B Ha Hb Hout SE HB Hrange d i)
    as (lo & Hlo & Rlo & Llo); [lia|].
  destruct (load_edges h a bins out A E T N B Ha Hb Hout SE HB Hrange d (i + 1))
    as (hi & Hhi & Rhi & Lhi); [lia|].
  pose proof (row_major_bounds B N i k Hi Hk) as Hidx.
  destruct (Hd i k Hi Hk) as (lo' & hi' & y0 & Hlo' & Hhi' & Hy0 & Hfit & Hc).
  simplify_eq.
  assert (d !! Z.to_nat (i * N + k) = Some (wrap_long y0)) as Hy.
  { rewrite wrap_long_small by done. destruct Hc as [[? _]|[_ ?]]; [tauto|done]. }
  eexists. unfold bin_loop. rewrite Llo. simpl. rewrite Lhi. simpl.
  rewrite (rows_loop h a bins out A E T N B Ha Hb Hout SA _ d i k y0);
    [split; [done|]|done..| |done].
  - split; [by rewrite length_insert|]. intros i' k' Hi' Hk'.
    destruct (Hd i' k' Hi' Hk') as (lo' & hi' & y' & Hlo' & Hhi' & Hy' & ? & Hcase).
    exists lo', hi', y'. split_and!; try done; try lia.
    destruct (decide (i' = i ∧ k' = k)) as [[-> ->]|Hne].
    + left. split; [by right|]. simplify_eq.
      rewrite list_lookup_insert_eq by lia. done.
    + rewrite list_lookup_insert_ne.
      * destruct Hcase as [[? ?]|[? ?]]; [left|right]; (split; [tauto|done]).
      * intros Heq. apply Hne.
        pose proof (row_major_bounds B N i' k' Hi' Hk').
        apply (row_major_inj N); [done..|lia].
  - intros j Hj%elem_of_xrange. lia.
Qed.

Lemma bins_loop_added Q d k :
  added A E B N d0 Q d → (∀ i, ¬ Q i k) → 0 ≤ k < N →
  ∃ d', for_each (xrange 0 B) (λ i, bin_loop a bins out N k i) (H d) =
          Done (H d') ∧
        added A E B N d0 (λ i' k', Q i' k' ∨ k' = k) d'.
Proof.
  intros Hd HQ Hk.
  destruct (for_each_inv
    (λ done s, ∃ d', s = H d' ∧
       added A E B N d0 (λ i' k', Q i' k' ∨ (i' ∈ done ∧ k' = k)) d')
    (λ i, bin_loop a bins out N k i) (xrange 0 B) (H d))
    as (s' & Hrun & d' & -> & Hadd).
  - apply NoDup_xrange.
  - exists d. split; [done|]. apply (added_weaken Q); [done|].
    intros i' k' _ _. pose proof (not_elem_of_nil i'). tauto.
  - intros done i s Hi%elem_of_xrange Hnew (d1 & -> & Hadd).
    destruct (bin_loop_added _ d1 i k Hadd) as (d2 & Hrun & Hadd2); [|lia|done|].
    { intros [?|[? _]]; [by apply (HQ i)|done]. }
    exists (H d2). split; [done|]. exists d2. split; [done|].
    eapply added_weaken; [exact Hadd2|]. intros i' k' _ _. simpl.
    rewrite elem_of_app, list_elem_of_singleton. tauto.
  - exists d'. split; [done|]. eapply added_weaken; [exact Hadd|].
    intros i' k' Hi' _. simpl. rewrite elem_of_xrange. intuition lia.
Qed.

Lemma channels_loop_added d :
  added A E B N d0 (λ _ _, False) d →
  ∃ d', for_each (xrange 0 N)
          (λ k, for_each (xrange 0 B) (λ i, bin_loop a bins out N k i)) (H d) =
          Done (H d') ∧
        added A E B N d0 (λ _ _, True) d'.
Proof.
  intros Hd.
  destruct (for_each_inv
    (λ done s, ∃ d', s = H d' ∧ added A E B N d0 (λ _ k', k' ∈ done) d')
    (λ k, for_each (xrange 0 B) (λ i, bin_loop a bins out N k i))
    (xrange 0 N) (H d))
    as (s' & Hrun & d' & -> & Hadd).
  - apply NoDup_xrange.
  - exists d. split; [done|]. apply (added_weaken (λ _ _, False)); [done|].
    intros i' k' _ _. pose proof (not_elem_of_nil k'). tauto.
  - intros done k s Hk%elem_of_xrange Hnew (d1 & -> & Hadd).
    destruct (bins_loop_added _ d1 k Hadd) as (d2 & Hrun & Hadd2); [done|lia|].
    exists (H d2). split; [done|]. exists d2. split; [done|].
    eapply added_weaken; [exact Hadd2|]. intros i' k' _ _. simpl.
    rewrite elem_of_app, list_elem_of_singleton. tauto.
  - exists d'. split; [done|]. eapply added_weaken; [exact Hadd|].
    intros i' k' _ Hk'. simpl. rewrite elem_of_xrange. intuition lia.
Qed.

End bin_accumulate.

(** X9. The kernel [_bin_data] adds to its output buffer: on a [long]
    buffer of shape [(B, N)] that already holds values it returns, has
    replaced element [(i, k)] by the old element plus the column sum of
    bin [i] (in [long] arithmetic), and has changed no other array.  The
    zeros in the result of [bin_data] come from [np.zeros], not from the
    kernel. *)
Theorem _bin_data_accumulates (h : gmap nat ndarray) (a bins out : nat)
    (A E : ndarray) (T N B : Z) (d0 : list Z) :
  h !! a = Some A → h !! bins = Some E →
  h !! out = Some (NdArray Long [B; N] d0) →
  is_samples A T N → is_edges E (B + 1) → 0 ≤ B →
  Z.of_nat (length d0) = B * N →
  Forall (λ v, long_min ≤ v ≤ long_max) d0 →
  Forall (λ e, 0 ≤ e ≤ T) (nd_data E) →
  ∃ d, _bin_data a bins out h = Done (<[out := NdArray Long [B; N] d]> h) ∧
    Z.of_nat (length d) = B * N ∧
    ∀ i k, 0 ≤ i < B → 0 ≤ k < N →
      ∃ lo hi y0, item1 E i = Some lo ∧ item1 E (i + 1) = Some hi ∧
        d0 !! Z.to_nat (i * N + k) = Some y0 ∧
        d !! Z.to_nat (i * N + k) =
          Some (wrap_long (y0 + column_sum A k lo hi)).
Proof.
  intros Ha Hb Ho SA SE HB Hlen Hfit Hrange.
  assert (out ≠ a) as Hoa.
  { intros ->. destruct SA as (Hd & _). rewrite Ha in Ho.
    injection Ho as ->. done. }
  assert (out ≠ bins) as Hob.
  { intros ->. destruct SE as (_ & Hs & _). rewrite Hb in Ho.
    injection Ho as ->. done. }
  set (h0 := delete out h).
  assert (h = <[out := NdArray Long [B; N] d0]> h0) as Hh.
  { subst h0. by rewrite insert_delete_id. }
  assert (∀ d, <[out := NdArray Long [B; N] d]> h =
               <[out := NdArray Long [B; N] d]> h0) as Hins.
  { intros d. subst h0. by rewrite insert_delete_eq. }
  assert (h0 !! a = Some A) as Ha0 by (subst h0; by rewrite lookup_delete_ne).
  assert (h0 !! bins = Some E) as Hb0 by (subst h0; by rewrite lookup_delete_ne).
  assert (h0 !! out = None) as Ho0 by (subst h0; apply lookup_delete_eq).
  destruct (channels_loop_added h0 a bins out A E T N B d0 Ha0 Hb0 Ho0 SA SE HB
              Hrange d0) as (d & Hrun & Hlen' & Hd).
  { split; [done|]. intros i k Hi Hk.
    destruct (is_edges_item1 E (B + 1) i SE) as [lo Hlo]; [lia|].
    destruct (is_edges_item1 E (B + 1) (i + 1) SE) as [hi Hhi]; [lia|].
    pose proof (row_major_bounds B N i k Hi Hk).
    destruct (lookup_lt_is_Some_2 d0 (Z.to_nat (i * N + k))) as [y0 Hy0]; [lia|].
    exists lo, hi, y0. split_and!; try done.
    - rewrite Forall_lookup in Hfit. apply (Hfit _ _ Hy0).
    - rewrite Forall_lookup in Hfit. apply (Hfit _ _ Hy0).
    - right. tauto. }
  exists d. split_and!; [|done|].
  - rewrite Hins, <- Hrun. rewrite Hh at 1.
    unfold _bin_data, shape_at.
    rewrite (lookup_insert_ne _ out bins), Hb0 by done. simpl.
    destruct SE as (HdE & HsE & HlE). rewrite HsE. simpl.
    rewrite ?outcome_Done_bind, lookup_insert_eq. simpl.
    rewrite ?outcome_Done_bind. by replace (B + 1 - 1) with B by lia.
  - intros i k Hi Hk.
    destruct (Hd i k Hi Hk) as (lo & hi & y0 & ? & ? & ? & ? & Hc).
    exists lo, hi, y0. split_and!; [done..|].
    destruct Hc as [[_ ?]|[? _]]; [done|tauto].
Qed.

Lemma _bin_data_accumulates_witness :
  ∃ d, _bin_data 0 1 2 ex_heap_preloaded =
         Done (<[2%nat := NdArray Long [2; 1] d]> ex_heap_preloaded) ∧
    Z.of_nat (length d) = 2 * 1 ∧
    ∀ i k, 0 ≤ i < 2 → 0 ≤ k < 1 →
      ∃ lo hi y0, item1 ex_edges i = Some lo ∧ item1 ex_edges (i + 1) = Some hi ∧
        [10; 20] !! Z.to_nat (i * 1 + k) = Some y0 ∧
        d !! Z.to_nat (i * 1 + k) =
          Some (wrap_long (y0 + column_sum ex_samples k lo hi)).
Proof.
  apply (_bin_data_accumulates ex_heap_preloaded 0%nat 1%nat 2%nat ex_samples
           ex_edges 4 1 2 [10; 20]);
    try reflexivity; try lia; [samples_ok|done| |forall_lia].
  unfold long_min, long_max. forall_lia.
Defined.

(** ** The cross-correlation kernel: when it returns and what it leaves *)

Section xcorr_calls.

Context {T : Type} (mul : T → T → T).
Implicit Types (h : gmap nat (list (list T))) (m : list (list T)).
Implicit Types (X Xc c p : nat) (i r j k n nx : Z).
Implicit Types (steps : list (Z * Z * Z * Z)).

Lemma mult_mat_xcorr_run_steps X Xc c n nx h :
  mult_mat_xcorr T mul X Xc c n nx h =
    run_steps T mul X Xc c (all_steps n nx) h.
Proof.
  unfold mult_mat_xcorr, _mult_mat_xcorr. by rewrite run_blocks_run_steps.
Qed.

Lemma run_steps_never_raises X Xc c steps h e :
  run_steps T mul X Xc c steps h ≠ Raised e.
Proof.
  revert h. induction steps as [|[[[i r] j] k] steps IH]; intros h; [done|].
  rewrite run_steps_cons.
  destruct (assign T mul X Xc c i r j k h) as [h1|e1|] eqn:H1; simpl;
    [apply IH| |done].
  by destruct (assign_not_Raised mul X Xc c i r j k h e1).
Qed.

Lemma product_at_is_Some h X Xc i r k :
  is_Some (product_at T mul h X Xc i r k) ↔
  is_Some (cell T h X i k) ∧ is_Some (cell T h Xc r k).
Proof.
  unfold product_at.
  destruct (cell T h X i k) as [x|], (cell T h Xc r k) as [y|]; simpl;
    rewrite <- ?not_eq_None_Some; intuition congruence.
Qed.

Lemma product_at_frame h h' X Xc i r k :
  h' !! X = h !! X → h' !! Xc = h !! Xc →
  product_at T mul h' X Xc i r k = product_at T mul h X Xc i r k.
Proof. intros HX HXc. unfold product_at, cell. by rewrite HX, HXc. Qed.

(** A run that ends normally has found every element it touches. *)
Lemma run_steps_Done_cells X Xc c steps h h' :
  run_steps T mul X Xc c steps h = Done h' →
  ∀ i r j k, (i, r, j, k) ∈ steps →
    is_Some (cell T h X i k) ∧ is_Some (cell T h Xc r k) ∧
    is_Some (cell T h c j k).
Proof.
  revert h. induction steps as [|[[[i0 r0] j0] k0] steps IH]; intros h Hrun.
  { intros i r j k Hel. by apply elem_of_nil in Hel. }
  rewrite run_steps_cons in Hrun.
  destruct (assign T mul X Xc c i0 r0 j0 k0 h) as [h1| |] eqn:H1;
    simpl in Hrun; [|done..].
  intros i r j k [Heq|Hel]%elem_of_cons.
  - injection Heq as -> -> -> ->.
    destruct (assign_cell mul _ _ _ _ _ _ _ _ _ H1) as (v & Hv & Hc & _).
    assert (is_Some (product_at T mul h X Xc i0 r0 k0)) as Hp by eauto.
    apply product_at_is_Some in Hp as [? ?]. done.
  - pose proof (assign_shapes mul _ _ _ _ _ _ _ _ _ H1) as Hs.
    destruct (IH h1 Hrun i r j k Hel) as (? & ? & ?).
    split_and!; by eapply cell_is_Some_shapes.
Qed.

Lemma in_bounds_all_steps h X Xc c n nx :
  in_bounds T h X Xc c n nx ↔
  ∀ i r j k, (i, r, j, k) ∈ all_steps n nx →
    is_Some (cell T h X i k) ∧ is_Some (cell T h Xc r k) ∧
    is_Some (cell T h c j k).
Proof.
  unfold in_bounds. split.
  - intros Hin i r j k (Hi & Hr & -> & Hk)%elem_of_all_steps. by apply Hin.
  - intros Hall i r k Hi Hr Hk. apply Hall. by apply elem_of_all_steps.
Qed.

Lemma all_steps_nil n nx : n ≤ 0 ∨ nx ≤ 0 → all_steps n nx = [].
Proof.
  intros Hle. destruct (all_steps n nx) as [|[[[i r] j] k] l] eqn:Heq; [done|].
  assert ((i, r, j, k) ∈ all_steps n nx) as Hel by (rewrite Heq; left).
  apply elem_of_all_steps in Hel. lia.
Qed.

(** The assignment that writes element [(j, k)], if there is one. *)
Lemma all_steps_target n nx j k :
  0 < n ∧ 0 ≤ j < n * n ∧ 0 ≤ k < nx →
  (j `div` n, j `mod` n, j, k) ∈ all_steps n nx.
Proof.
  intros (Hn & Hj & Hk). apply elem_of_all_steps.
  pose proof (Z.div_mod j n ltac:(lia)).
  pose proof (Z.mod_pos_bound j n Hn).
  assert (0 ≤ j `div` n) by (apply Z.div_pos; lia).
  assert (j `div` n < n) by (apply Z.div_lt_upper_bound; lia).
  split_and!; lia.
Qed.

Lemma all_steps_no_target n nx j k :
  ¬ (0 < n ∧ 0 ≤ j < n * n ∧ 0 ≤ k < nx) →
  ∀ i r, (i, r, j, k) ∉ all_steps n nx.
Proof.
  intros Hout i r (Hi & Hr & -> & Hk)%elem_of_all_steps. apply Hout. nia.
Qed.

(** The buffer [c] after a run of all assignments that ended normally,
    [c] being neither [X] nor [Xc]. *)
Lemma run_all_steps_cells X Xc c n nx h h' :
  run_steps T mul X Xc c (all_steps n nx) h = Done h' →
  c ≠ X → c ≠ Xc →
  ∀ j k, cell T h' c j k =
    if decide (0 < n ∧ 0 ≤ j < n * n ∧ 0 ≤ k < nx)
    then product_at T mul h X Xc (j `div` n) (j `mod` n) k
    else cell T h c j k.
Proof.
  intros Hrun HX HXc j k. case_decide as Hin.
  - destruct (run_steps_values mul X Xc c _ _ _ Hrun)
      with (j `div` n) (j `mod` n) j k as [_ Hcell]; [| | | |done].
    + intros ????????. apply all_steps_target_inj.
    + apply NoDup_all_steps.
    + intros. split; intros ->; done.
    + by apply all_steps_target.
  - destruct (run_steps_frame mul _ _ _ _ _ _ Hrun) as [_ Hfr].
    apply Hfr. by apply all_steps_no_target.
Qed.

End xcorr_calls.

(** X10. The elements that the loops of [mult_mat_xcorr] touch are rows
    [0 .. n-1] of [X] and of [Xc] and rows [0 .. n*n-1] of [c], columns
    [0 .. nx-1]; of [Xc] only [n] rows are touched, not [n*n].  The call
    never raises.  It runs to its end with every access inside its buffer
    exactly when all these elements exist; when one of them does not
    exist, the call reads or writes outside a buffer (an unchecked access,
    after which the compiled code may still return). *)
Theorem mult_mat_xcorr_defined {T : Type} (mul : T → T → T)
    (h : gmap nat (list (list T))) (X Xc c : nat) (n nx : Z) :
  (in_bounds T h X Xc c n nx ↔
     ∃ h', mult_mat_xcorr T mul X Xc c n nx h = Done h') ∧
  (¬ in_bounds T h X Xc c n nx ↔
     mult_mat_xcorr T mul X Xc c n nx h = Undefined).
Proof.
  rewrite mult_mat_xcorr_run_steps.
  assert (in_bounds T h X Xc c n nx ↔
          ∃ h', run_steps T mul X Xc c (all_steps n nx) h = Done h') as Hiff.
  { split.
    - intros Hin.
      destruct (run_steps_is_Done mul X Xc c (all_steps n nx) h
                  (proj1 (in_bounds_all_steps h X Xc c n nx) Hin))
        as (h' & Hrun & _).
      eauto.
    - intros [h' Hrun]. apply (proj2 (in_bounds_all_steps h X Xc c n nx)).
      by apply (run_steps_Done_cells mul X Xc c _ h h'). }
  split; [done|]. split.
  - intros Hout.
    destruct (run_steps T mul X Xc c (all_steps n nx) h) as [h'|e|] eqn:Hrun;
      [|by destruct (run_steps_never_raises mul X Xc c (all_steps n nx) h e)
       |done].
    destruct Hout. apply Hiff. eauto.
  - intros Hrun [h' Hdone]%Hiff. congruence.
Qed.

(** X11. With [n <= 0] or [nx <= 0] no loop body runs: the call returns
    and the heap is as before, whatever the buffers are. *)
Theorem mult_mat_xcorr_empty {T : Type} (mul : T → T → T)
    (h : gmap nat (list (list T))) (X Xc c : nat) (n nx : Z) :
  n ≤ 0 ∨ nx ≤ 0 → mult_mat_xcorr T mul X Xc c n nx h = Done h.
Proof.
  intros Hle. by rewrite mult_mat_xcorr_run_steps, all_steps_nil.
Qed.

Lemma mult_mat_xcorr_empty_witness :
  mult_mat_xcorr f8 f8_mul 0 1 2 2 0 ex_heap = Done ex_heap.
Proof. apply (mult_mat_xcorr_empty f8_mul ex_heap 0%nat 1%nat 2%nat 2 0). lia. Defined.

(** X12. The buffer [c] after a call that returns, [c] being neither [X]
    nor [Xc]: it has kept its shape, element [(j, k)] with [j < n*n] and
    [k < nx] is [X[j // n][k] * Xc[j % n][k]], and every other element of
    [c] (further rows, further columns) is as before the call.  No shape is
    assumed. *)
Theorem mult_mat_xcorr_result {T : Type} (mul : T → T → T)
    (h h' : gmap nat (list (list T))) (X Xc c : nat) (n nx : Z) :
  mult_mat_xcorr T mul X Xc c n nx h = Done h' →
  c ≠ X → c ≠ Xc →
  shape_of T <$> h' = shape_of T <$> h ∧
  ∀ j k, cell T h' c j k =
    if decide (0 < n ∧ 0 ≤ j < n * n ∧ 0 ≤ k < nx)
    then product_at T mul h X Xc (j `div` n) (j `mod` n) k
    else cell T h c j k.
Proof.
  rewrite mult_mat_xcorr_run_steps. intros Hrun HX HXc. split.
  - by eapply run_steps_shapes.
  - by apply run_all_steps_cells.
Qed.

Lemma mult_mat_xcorr_result_witness :
  shape_of f8 <$> <[2%nat := [[2]; [4]; [3]; [6]]%float]> ex_heap =
    shape_of f8 <$> ex_heap ∧
  ∀ j k, cell f8 (<[2%nat := [[2]; [4]; [3]; [6]]%float]> ex_heap) 2 j k =
    if decide (0 < 2 ∧ 0 ≤ j < 2 * 2 ∧ 0 ≤ k < 1)
    then product_at f8 f8_mul ex_heap 0 1 (j `div` 2) (j `mod` 2) k
    else cell f8 ex_heap 2 j k.
Proof.
  apply (mult_mat_xcorr_result f8_mul ex_heap _ 0%nat 1%nat 2%nat 2 1);
    [vm_compute; reflexivity|done|done].
Defined.

(** X13. A second call with the same arguments changes nothing: when a
    call returns and [c] is neither [X] nor [Xc], calling again on the heap
    it left returns that same heap. *)
Theorem mult_mat_xcorr_idempotent {T : Type} (mul : T → T → T)
    (h h' : gmap nat (list (list T))) (X Xc c : nat) (n nx : Z) :
  mult_mat_xcorr T mul X Xc c n nx h = Done h' →
  c ≠ X → c ≠ Xc →
  mult_mat_xcorr T mul X Xc c n nx h' = Done h'.
Proof.
  rewrite !mult_mat_xcorr_run_steps. intros Hrun HX HXc.
  pose proof (run_steps_shapes mul _ _ _ _ _ _ Hrun) as Hs.
  destruct (run_steps_frame mul _ _ _ _ _ _ Hrun) as [Hfr _].
  destruct (run_steps_is_Done mul X Xc c (all_steps n nx) h')
    as (h'' & Hrun' & Hs').
  { intros i r j k Hel.
    destruct (run_steps_Done_cells mul _ _ _ _ _ _ Hrun i r j k Hel)
      as (? & ? & ?).
    split_and!; by eapply cell_is_Some_shapes. }
  rewrite Hrun'. f_equal. apply map_eq. intros p.
  destruct (run_steps_frame mul _ _ _ _ _ _ Hrun') as [Hfr' _].
  destruct (decide (p = c)) as [->|Hp]; [|by apply Hfr'].
  assert (∀ j k, cell T h'' c j k = cell T h' c j k) as Hcells.
  { intros j k.
    rewrite (run_all_steps_cells mul _ _ _ _ _ _ _ Hrun' HX HXc).
    rewrite (run_all_steps_cells mul _ _ _ _ _ _ _ Hrun HX HXc j k).
    case_decide; [|done].
    apply product_at_frame; apply Hfr; done. }
  assert ((shape_of T <$> h'') !! c = (shape_of T <$> h') !! c) as Hsc
    by by rewrite Hs'.
  rewrite !lookup_fmap in Hsc.
  destruct (h'' !! c) as [m''|] eqn:H2, (h' !! c) as [m'|] eqn:H1;
    simpl in Hsc; try done.
  f_equal. apply view_ext; [congruence|]. intros j k.
  rewrite <- (cell_lookup h'' c m'' j k H2), <- (cell_lookup h' c m' j k H1).
  apply Hcells.
Qed.

Lemma mult_mat_xcorr_idempotent_witness :
  mult_mat_xcorr f8 f8_mul 0 1 2 2 1
    (<[2%nat := [[2]; [4]; [3]; [6]]%float]> ex_heap) =
  Done (<[2%nat := [[2]; [4]; [3]; [6]]%float]> ex_heap).
Proof.
  apply (mult_mat_xcorr_idempotent f8_mul ex_heap _ 0%nat 1%nat 2%nat 2 1);
    [vm_compute; reflexivity|done|done].
Defined.
